(** * Substring matchers and upper-bound binary search

    A shallow embedding of [Task_03_Sadism.py] (Boyer-Moore-Horspool,
    Knuth-Morris-Pratt and Rabin-Karp) and of [Task_02_binary_search.py],
    followed by the verification of their specification.

    Python integers are unbounded, so they are modelled by [Z]; a [str] is a
        list of characters over an arbitrary countable alphabet with a code point
        function [ord]; a [dict] is a [gmap]; a [list] is a [list] whose indexing
        raises [IndexError] out of range.

        A [while] loop is run for at most [fuel] passes and a function with such
        a loop takes [fuel] as its first argument; [for] loops are recursions on
        the sequence they walk.  That the loops end is proved, not assumed: the
        theorems give the number of passes that is enough and show that the
        functions then return, without an exception. *)

From Stdlib Require Import ZArith Lia String Ascii.
From stdpp Require Import base option list gmap strings sorting.

Local Open Scope Z_scope.

(** ** A small model of the Python run time *)

Module Py.

(** The exceptions the modelled code could raise. *)
Inductive exn : Type := IndexError | ValueError | ZeroDivisionError.

(** What running a piece of code gives: a value, an exception, or no answer
    within the number of loop iterations it was allowed. *)
Inductive outcome (A : Type) : Type :=
| Returned (a : A)
| Raised (e : exn)
| OutOfFuel.
Arguments Returned {A} a.
Arguments Raised {A} e.
Arguments OutOfFuel {A}.

Definition bind {A B : Type} (c : outcome A) (k : A -> outcome B) : outcome B :=
  match c with
  | Returned a => k a
  | Raised e => Raised e
  | OutOfFuel => OutOfFuel
  end.

(** How one pass through a loop body ends: go on with a new state, or leave
    the enclosing function with [return r]. *)
Inductive flow (St R : Type) : Type :=
| Next (s : St)
| Return (r : R).
Arguments Next {St R} s.
Arguments Return {St R} r.

(** The objects the matchers can hand back: an [int] or [None]. *)
Inductive value : Type := VInt (z : Z) | VNone.

(** [while cond: body], allowed to run [body] at most [fuel] times.  The
    guard is tested first, so a loop whose guard is false needs no fuel. *)
Fixpoint while {St R : Type} (cond : St -> outcome bool)
    (body : St -> outcome (flow St R)) (fuel : nat) (s : St) : outcome (flow St R) :=
  bind (cond s) (fun b =>
    if b then
      match fuel with
      | O => OutOfFuel
      | S fuel' =>
          bind (body s) (fun f =>
            match f with
            | Next s' => while cond body fuel' s'
            | Return r => Returned (Return r)
            end)
      end
    else Returned (Next s)).

(** [for x in xs: body]. *)
Fixpoint for_in {A St R : Type} (body : A -> St -> outcome (flow St R))
    (xs : list A) (s : St) : outcome (flow St R) :=
  match xs with
  | [] => Returned (Next s)
  | x :: xs' =>
      bind (body x s) (fun f =>
        match f with
        | Next s' => for_in body xs' s'
        | Return r => Returned (Return r)
        end)
  end.

(** [len(l)]. *)
Definition len {A : Type} (l : list A) : Z := Z.of_nat (length l).

(** [range(k)]: [0, 1, ..., k-1], empty when [k <= 0]. *)
Definition range (k : Z) : list Z := map Z.of_nat (seq 0 (Z.to_nat k)).

(** [enumerate(l)]. *)
Definition enumerate {A : Type} (l : list A) : list (Z * A) :=
  zip (range (len l)) l.

(** A negative index counts from the end. *)
Definition norm_index {A : Type} (l : list A) (i : Z) : Z :=
  if i <? 0 then i + len l else i.

(** [l[i]]. *)
Definition index {A : Type} (l : list A) (i : Z) : outcome A :=
  let k := norm_index l i in
  if (0 <=? k) && (k <? len l) then
    match l !! Z.to_nat k with
    | Some a => Returned a
    | None => Raised IndexError
    end
  else Raised IndexError.

(** [l[i] = a], giving the updated list. *)
Definition setitem {A : Type} (l : list A) (i : Z) (a : A) : outcome (list A) :=
  let k := norm_index l i in
  if (0 <=? k) && (k <? len l) then Returned (<[Z.to_nat k := a]> l)
  else Raised IndexError.

(** A slice bound is clamped into [0, len(l)] after a negative one has been
    counted from the end. *)
Definition clamp {A : Type} (l : list A) (i : Z) : Z :=
  if i <? 0 then Z.max 0 (i + len l) else Z.min i (len l).

(** [l[lo:hi]]. *)
Definition slice {A : Type} (l : list A) (lo hi : Z) : list A :=
  let a := clamp l lo in
  let b := clamp l hi in
  take (Z.to_nat (b - a)) (drop (Z.to_nat a) l).

(** [l[:-1]]. *)
Definition but_last {A : Type} (l : list A) : list A := slice l 0 (-1).

(** [[a] * k]. *)
Definition repeat_list {A : Type} (a : A) (k : Z) : list A :=
  replicate (Z.to_nat k) a.

(** [a % b]: the remainder has the sign of [b]. *)
Definition mod_ (a b : Z) : outcome Z :=
  if b =? 0 then Raised ZeroDivisionError else Returned (a mod b).

(** [pow(b, e, md)] for an exponent [e >= 0]; the only call passes
    [m - 1] after the guard [m == 0] has been passed. *)
Definition pow_mod (b e md : Z) : outcome Z :=
  if md =? 0 then Raised ValueError else Returned ((b ^ e) mod md).

(** [d.get(k, default)]. *)
Definition dict_get `{Countable K} {V : Type} (d : gmap K V) (k : K) (default : V) : V :=
  match d !! k with
  | Some v => v
  | None => default
  end.

End Py.

Import Py.

Notation "x <- c ;; k" := (Py.bind c (fun x => k))
  (at level 100, c at next level, right associativity).

(** ** The three matchers of [Task_03_Sadism.py] *)

Section Matchers.

Context {char : Type} `{Countable char}.

(** [ord(c)]. *)
Variable ord : char -> Z.

(** *** Boyer-Moore-Horspool *)

(** The shift table: [for i, ch in enumerate(pattern[:-1]): shift[ch] = m - 1 - i]. *)
Definition build_shift (pattern : list char) : gmap char Z :=
  let m := len pattern in
  fold_left (fun (shift : gmap char Z) '(i, ch) => <[ch := m - 1 - i]> shift)
    (enumerate (but_last pattern)) ∅.

(** [while j >= 0 and pattern[j] == text[i + j]: j -= 1], giving the final [j]. *)
Definition bmh_compare (fuel : nat) (text pattern : list char) (i j : Z)
  : outcome (flow Z Empty_set) :=
  while
    (fun j =>
       if 0 <=? j then
         p <- index pattern j;;
         t <- index text (i + j);;
         Returned (bool_decide (p = t))
       else Returned false)
    (fun j => Returned (Next (j - 1)))
    fuel j.

(** The body of the scanning loop, at alignment [i]. *)
Definition bmh_body (fuel : nat) (shift : gmap char Z) (text pattern : list char)
    (i : Z) : outcome (flow Z value) :=
  let m := len pattern in
  let last := m - 1 in
  r <- bmh_compare fuel text pattern i last;;
  match r with
  | Return e => match e with end
  | Next j =>
      if j <? 0 then Returned (Return (VInt i))
      else
        c <- index text (i + last);;
        Returned (Next (i + dict_get shift c m))
  end.

(** [while i <= n - m: ...], the inner comparison being allowed [inner]
    iterations and the scan [fuel] iterations. *)
Definition bmh_scan (inner fuel : nat) (shift : gmap char Z) (text pattern : list char)
    (i : Z) : outcome (flow Z value) :=
  let n := len text in
  let m := len pattern in
  while (fun i => Returned (i <=? n - m)) (bmh_body inner shift text pattern) fuel i.

Definition boyer_moore_horspool (fuel : nat) (text pattern : list char) : outcome value :=
  let n := len text in
  let m := len pattern in
  if m =? 0 then Returned (VInt 0)
  else if m >? n then Returned (VInt (-1))
  else
    let shift := build_shift pattern in
    r <- bmh_scan fuel fuel shift text pattern 0;;
    match r with
    | Return v => Returned v
    | Next _ => Returned (VInt (-1))
    end.

(** *** Knuth-Morris-Pratt *)

(** One pass through the loop that fills [lps]; the state is [(i, length, lps)]. *)
Definition lps_body (pattern : list char) (st : Z * Z * list Z)
  : outcome (flow (Z * Z * list Z) Empty_set) :=
  let '(i, length, lps) := st in
  a <- index pattern i;;
  b <- index pattern length;;
  if bool_decide (a = b) then
    let length := length + 1 in
    lps <- setitem lps i length;;
    Returned (Next (i + 1, length, lps))
  else if negb (length =? 0) then
    length <- index lps (length - 1);;
    Returned (Next (i, length, lps))
  else
    lps <- setitem lps i 0;;
    Returned (Next (i + 1, length, lps)).

(** The table [lps] as [kmp_search] builds it. *)
Definition build_lps (fuel : nat) (pattern : list char) : outcome (list Z) :=
  let m := len pattern in
  r <- while (fun '(i, _, _) => Returned (i <? m)) (lps_body pattern) fuel
         (1, 0, repeat_list 0 m);;
  match r with
  | Next (_, _, lps) => Returned lps
  | Return e => match e with end
  end.

(** One pass through the scanning loop; the state is [(i, j)]. *)
Definition kmp_body (lps : list Z) (text pattern : list char) (st : Z * Z)
  : outcome (flow (Z * Z) value) :=
  let m := len pattern in
  let '(i, j) := st in
  a <- index text i;;
  b <- index pattern j;;
  if bool_decide (a = b) then
    let i := i + 1 in
    let j := j + 1 in
    if j =? m then Returned (Return (VInt (i - j)))
    else Returned (Next (i, j))
  else if negb (j =? 0) then
    j <- index lps (j - 1);;
    Returned (Next (i, j))
  else Returned (Next (i + 1, j)).

Definition kmp_scan (fuel : nat) (lps : list Z) (text pattern : list char)
    (st : Z * Z) : outcome (flow (Z * Z) value) :=
  let n := len text in
  while (fun '(i, _) => Returned (i <? n)) (kmp_body lps text pattern) fuel st.

Definition kmp_search (fuel : nat) (text pattern : list char) : outcome value :=
  let n := len text in
  let m := len pattern in
  if m =? 0 then Returned (VInt 0)
  else if m >? n then Returned (VInt (-1))
  else
    lps <- build_lps fuel pattern;;
    r <- kmp_scan fuel lps text pattern (0, 0);;
    match r with
    | Return v => Returned v
    | Next _ => Returned (VInt (-1))
    end.

(** *** Rabin-Karp *)

(** One pass through [for i in range(m)], hashing the pattern and the first
    window; the state is [(p_hash, t_hash)]. *)
Definition rk_init_body (text pattern : list char) (base md : Z) (i : Z)
    (st : Z * Z) : outcome (flow (Z * Z) Empty_set) :=
  let '(p_hash, t_hash) := st in
  pc <- index pattern i;;
  p_hash <- mod_ (p_hash * base + ord pc) md;;
  tc <- index text i;;
  t_hash <- mod_ (t_hash * base + ord tc) md;;
  Returned (Next (p_hash, t_hash)).

(** [t_hash = (t_hash - ord(text[i]) * h) % mod]. *)
Definition rk_drop (text : list char) (md h : Z) (i t_hash : Z) : outcome Z :=
  out <- index text i;;
  mod_ (t_hash - ord out * h) md.

(** [t_hash = (t_hash * base + ord(text[i + m])) % mod]. *)
Definition rk_push (text : list char) (base md m : Z) (i t_hash : Z) : outcome Z :=
  inc <- index text (i + m);;
  mod_ (t_hash * base + ord inc) md.

(** One pass through [for i in range(n - m + 1)]; the state is [t_hash], and
    [roll] stands for the statements under [if i < n - m], which both ways
    out of the hash test reach. *)
Definition rk_body (text pattern : list char) (base md h p_hash : Z) (i : Z)
    (t_hash : Z) : outcome (flow Z value) :=
  let n := len text in
  let m := len pattern in
  let roll :=
    if i <? n - m then
      t_hash <- rk_drop text md h i t_hash;;
      t_hash <- rk_push text base md m i t_hash;;
      Returned (Next t_hash)
    else Returned (Next t_hash) in
  if p_hash =? t_hash then
    if bool_decide (slice text i (i + m) = pattern) then Returned (Return (VInt i))
    else roll
  else roll.

(** The hashes after the first loop. *)
Definition rk_init (text pattern : list char) (base md : Z)
  : outcome (flow (Z * Z) Empty_set) :=
  for_in (rk_init_body text pattern base md) (range (len pattern)) (0, 0).

Definition rabin_karp_search (text pattern : list char) (base md : Z) : outcome value :=
  let n := len text in
  let m := len pattern in
  if m =? 0 then Returned (VInt 0)
  else if m >? n then Returned (VInt (-1))
  else
    h <- pow_mod base (m - 1) md;;
    r <- rk_init text pattern base md;;
    match r with
    | Return e => match e with end
    | Next (p_hash, t_hash) =>
        r <- for_in (rk_body text pattern base md h p_hash) (range (n - m + 1)) t_hash;;
        match r with
        | Return v => Returned v
        | Next _ => Returned (VInt (-1))
        end
    end.

(** The default arguments [base = 256] and [mod = 1_000_000_007]. *)
Definition default_base : Z := 256.
Definition default_mod : Z := 1000000007.

End Matchers.

(** ** [binary_search_upper_bound] of [Task_02_binary_search.py] *)

Section BinarySearch.

(** The elements and their comparison [a >= b]. *)
Context {A : Type}.
Variable ge : A -> A -> bool.

(** One pass through the loop; the state is
    [(left, right, iterations, upper_bound)], with [left_] and [right_] for
    the variables [left] and [right]. *)
Definition bs_body (arr : list A) (x : A) (st : Z * Z * Z * option A)
  : outcome (flow (Z * Z * Z * option A) Empty_set) :=
  let '(left_, right_, iterations, upper_bound) := st in
  let iterations := iterations + 1 in
  let mid := (left_ + right_) / 2 in
  a <- index arr mid;;
  if ge a x then Returned (Next (left_, mid - 1, iterations, Some a))
  else Returned (Next (mid + 1, right_, iterations, upper_bound)).

Definition binary_search_upper_bound (fuel : nat) (arr : list A) (x : A)
  : outcome (Z * option A) :=
  r <- while (fun '(left_, right_, _, _) => Returned (left_ <=? right_))
         (bs_body arr x) fuel (0, len arr - 1, 0, None);;
  match r with
  | Next (_, _, iterations, upper_bound) => Returned (iterations, upper_bound)
  | Return e => match e with end
  end.

End BinarySearch.

(** ** [sum_time] of [main] in [Task_03_Sadism.py] *)

Section Report.

(** Text names, pattern labels, algorithm names, and the seconds: floats,
    of which the code uses [0.0], [+] and, in [sorted], [<]. *)
Context {TN PL K T : Type} `{EqDecision K}.
Variable zero : T.
Variable add : T -> T -> T.
Variable lt : T -> T -> bool.

(** A [dict] as the list of its items: Python keeps them in the order in
    which the keys were first inserted. *)
Fixpoint od_lookup (d : list (K * T)) (k : K) : option T :=
  match d with
  | [] => None
  | (k', v) :: d' => if decide (k = k') then Some v else od_lookup d' k
  end.

(** [d.get(k, default)]. *)
Definition od_get (d : list (K * T)) (k : K) (default : T) : T :=
  match od_lookup d k with
  | Some v => v
  | None => default
  end.

(** [d[k] = v]: a key that is present keeps its place. *)
Fixpoint od_set (d : list (K * T)) (k : K) (v : T) : list (K * T) :=
  match d with
  | [] => [(k, v)]
  | (k', v') :: d' =>
      if decide (k = k') then (k', v) :: d' else (k', v') :: od_set d' k v
  end.

(** [sorted(items, key=lambda x: x[1])].  The sort of Python is stable and
    compares with [<] only; it is modelled by the stable insertion of each
    item before the first item that is not smaller. *)
Fixpoint insert_by_value (x : K * T) (l : list (K * T)) : list (K * T) :=
  match l with
  | [] => [x]
  | y :: l' => if lt y.2 x.2 then y :: insert_by_value x l' else x :: l
  end.

Definition sorted_by_value (l : list (K * T)) : list (K * T) :=
  foldr insert_by_value [] l.

(** The dict [totals] after the loop over [results]. *)
Definition sum_time_totals (results : list (TN * PL * K * T))
    (filter_fn : TN -> PL -> bool) : list (K * T) :=
  fold_left
    (fun totals '(text_name, pat_label, algo_name, sec) =>
       if filter_fn text_name pat_label
       then od_set totals algo_name (add (od_get totals algo_name zero) sec)
       else totals)
    results [].

(** [sum_time(filter_fn)], with the list [results] it closes over. *)
Definition sum_time (results : list (TN * PL * K * T))
    (filter_fn : TN -> PL -> bool) : list (K * T) :=
  let totals := sum_time_totals results filter_fn in
  sorted_by_value totals.

(** The seconds of the results of algorithm [k] that pass the filter, in
    the order of [results]. *)
Definition passing_secs (results : list (TN * PL * K * T))
    (filter_fn : TN -> PL -> bool) (k : K) : list T :=
  omap (fun '(text_name, pat_label, algo_name, sec) =>
          if filter_fn text_name pat_label && bool_decide (algo_name = k)
          then Some sec else None)
    results.

(** The seconds added up from [0.0], from left to right. *)
Definition total_of (secs : list T) : T := fold_left add secs zero.

End Report.

(** Characters of a string literal, with their ASCII codes as [ord]. *)
Definition str (s : string) : list ascii := list_ascii_of_string s.
Definition ascii_ord (c : ascii) : Z := Z.of_N (N_of_ascii c).

(** ** What the specification talks about *)

Section Reference.

Context {char : Type} `{EqDecision char}.
Variable ord : char -> Z.

(** [pattern] occurs in [text] at index [i]. *)
Definition occurs_at (text pattern : list char) (i : Z) : Prop :=
  0 <= i <= len text - len pattern /\ slice text i (i + len pattern) = pattern.

(** The naive reference search: try the positions [0, 1, ..., n - m] from
    left to right and report the first one where the window equals the
    pattern, [-1] when there is none. *)
Definition naive_search (text pattern : list char) : Z :=
  let n := len text in
  let m := len pattern in
  match List.find (fun i => bool_decide (slice text i (i + m) = pattern))
          (range (n - m + 1)) with
  | Some i => i
  | None => -1
  end.

(** [r] is the leftmost occurrence, or [-1] when there is no occurrence. *)
Definition leftmost (text pattern : list char) (r : Z) : Prop :=
  (r = -1 /\ forall i, ~ occurs_at text pattern i) \/
  (occurs_at text pattern r /\ forall i, i < r -> ~ occurs_at text pattern i).

(** [s] has a proper prefix of length [b] that is also a suffix of [s]. *)
Definition is_border (s : list char) (b : nat) : Prop :=
  (b < length s)%nat /\ take b s = drop (length s - b) s.

(** [b] is the length of the longest proper prefix of [s] that is also a
    suffix of [s]. *)
Definition longest_border (s : list char) (b : nat) : Prop :=
  is_border s b /\ forall b', is_border s b' -> (b' <= b)%nat.

(** The polynomial [sum of ord(c_k) * base^(m-1-k)] of a window. *)
Fixpoint poly_sum (base : Z) (w : list char) : Z :=
  match w with
  | [] => 0
  | c :: w' => ord c * base ^ len w' + poly_sum base w'
  end.

(** The polynomial hash: the sum reduced modulo [md]. *)
Definition poly_hash (base md : Z) (w : list char) : Z := poly_sum base w mod md.

(** The hash as the first loop of [rabin_karp_search] accumulates it. *)
Definition horner (base md : Z) (w : list char) : Z :=
  fold_left (fun acc c => (acc * base + ord c) mod md) w 0.

(** The pattern occurs in the text at the natural position [s]. *)
Definition occ (text pattern : list char) (s : nat) : Prop :=
  forall k, (k < length pattern)%nat -> text !! (s + k)%nat = pattern !! k.

(** The prefix of length [i] of [p] has a border of length [q]. *)
Definition bord (p : list char) (i q : nat) : Prop :=
  (q < i)%nat /\ (i <= length p)%nat /\
  forall k, (k < q)%nat -> p !! k = p !! (i - q + k)%nat.

(** The entries of [lps] below [i] are the longest borders of the prefixes. *)
Definition lps_ok (p : list char) (lps : list Z) (i : nat) : Prop :=
  forall k, (k < i)%nat ->
    exists b, lps !! k = Some (Z.of_nat b) /\ bord p (S k) b /\
              forall b', bord p (S k) b' -> (b' <= b)%nat.

(** The state of the loop that fills [lps]: the entries below [i] are
    final, [length] is a border of the prefix of length [i], and no longer
    border of that prefix can be extended by [pattern[i]]. *)
Definition lps_inv (pattern : list char) (st : Z * Z * list Z) : Prop :=
  exists (i l : nat) lps, st = (Z.of_nat i, Z.of_nat l, lps) /\
    (1 <= i <= length pattern)%nat /\ length lps = length pattern /\
    lps_ok pattern lps i /\ bord pattern i l /\
    forall q, bord pattern i q -> (l < q)%nat -> pattern !! q <> pattern !! i.

(** The state of the scanning loop of [kmp_search]: the first [j]
    characters of the pattern end at [i], and nothing occurs further left. *)
Definition kmp_inv (text pattern : list char) (st : Z * Z) : Prop :=
  exists i j : nat, st = (Z.of_nat i, Z.of_nat j) /\
    (j <= i <= length text)%nat /\ (j < length pattern)%nat /\
    (forall k, (k < j)%nat -> pattern !! k = text !! (i - j + k)%nat) /\
    forall s, (s < i - j)%nat -> ~ occ text pattern s.

End Reference.

(** What a finished loop hands to the code after it: the returned value, or
    [-1] from the final [return -1]. *)
Definition result_of {St : Type} (f : flow St value) : value :=
  match f with
  | Return v => v
  | Next _ => VInt (-1)
  end.

(** Ascending order under the comparison [ge]. *)
Fixpoint sortedb {A : Type} (ge : A -> A -> bool) (l : list A) : bool :=
  match l with
  | [] => true
  | a :: l' => forallb (fun b => ge b a) l' && sortedb ge l'
  end.

(** The state of the loop of [binary_search_upper_bound]: everything left of
    [left] is below [x], everything right of [right] is at least [x], and
    [upper_bound] is the element just right of [right], if there is one. *)
Definition bs_inv {A : Type} (ge : A -> A -> bool) (arr : list A) (x : A)
    (st : Z * Z * Z * option A) : Prop :=
  exists (lo hi1 : nat) (iterations : Z),
    st = (Z.of_nat lo, Z.of_nat hi1 - 1, iterations, arr !! hi1) /\
    (lo <= hi1 <= length arr)%nat /\
    (forall k a, (k < lo)%nat -> arr !! k = Some a -> ge a x = false) /\
    (forall k a, (hi1 <= k)%nat -> arr !! k = Some a -> ge a x = true).

(** The state of the same loop on a list in any order: the part still to be
    searched has been halved [iterations] times, and [upper_bound] is [None]
    or an element that is at least [x]. *)
Definition bs_any_inv {A : Type} (ge : A -> A -> bool) (arr : list A) (x : A)
    (st : Z * Z * Z * option A) : Prop :=
  exists (lo hi1 it : nat) (ub : option A),
    st = (Z.of_nat lo, Z.of_nat hi1 - 1, Z.of_nat it, ub) /\
    (lo <= hi1 <= length arr)%nat /\
    ((hi1 - lo) * 2 ^ it <= length arr)%nat /\
    (it = 0%nat -> lo = 0%nat /\ hi1 = length arr) /\
    (it <> 0%nat -> (2 ^ (it - 1) <= length arr)%nat) /\
    (forall v, ub = Some v -> v ∈ arr /\ ge v x = true).

(** The passes the loop still needs for a part of [s] elements. *)
Definition bs_passes (s : Z) : nat :=
  if s <=? 0 then 0%nat else S (Z.to_nat (Z.log2 s)).

(** ** Facts about the run-time model *)

Section Runtime.

Context {A : Type}.
Implicit Types (l : list A) (a : A).

Lemma index_nat l (i : nat) a :
  l !! i = Some a -> index l (Z.of_nat i) = Returned a.
Proof.
  intros Hl. pose proof (lookup_lt_Some _ _ _ Hl) as Hlt.
  unfold index, norm_index, len.
  destruct (Z.ltb_spec (Z.of_nat i) 0) as [?|_]; [lia|].
  destruct (Z.leb_spec 0 (Z.of_nat i)) as [_|?]; [|lia].
  destruct (Z.ltb_spec (Z.of_nat i) (Z.of_nat (length l))) as [_|?]; [|lia].
  simpl. by rewrite Nat2Z.id, Hl.
Qed.

Lemma index_Z l (i : Z) a :
  0 <= i -> l !! Z.to_nat i = Some a -> index l i = Returned a.
Proof.
  intros Hi Hl. rewrite <- (Z2Nat.id i) by done. by apply index_nat.
Qed.

Lemma setitem_nat l (i : nat) a :
  (i < length l)%nat -> setitem l (Z.of_nat i) a = Returned (<[i := a]> l).
Proof.
  intros Hlt. unfold setitem, norm_index, len.
  destruct (Z.ltb_spec (Z.of_nat i) 0) as [?|_]; [lia|].
  destruct (Z.leb_spec 0 (Z.of_nat i)) as [_|?]; [|lia].
  destruct (Z.ltb_spec (Z.of_nat i) (Z.of_nat (length l))) as [_|?]; [|lia].
  simpl. by rewrite Nat2Z.id.
Qed.

(** A slice with bounds [0 <= i] and [i + m], [0 <= m]. *)
Lemma slice_nat l (i m : nat) :
  slice l (Z.of_nat i) (Z.of_nat i + Z.of_nat m) = take m (drop i l).
Proof.
  unfold slice, clamp, len.
  destruct (Z.ltb_spec (Z.of_nat i) 0) as [?|_]; [lia|].
  destruct (Z.ltb_spec (Z.of_nat i + Z.of_nat m) 0) as [?|_]; [lia|].
  destruct (decide (i <= length l)%nat) as [Hle|Hgt].
  - replace (Z.to_nat (Z.min (Z.of_nat i) (Z.of_nat (length l)))) with i by lia.
    destruct (decide (i + m <= length l)%nat).
    + f_equal. lia.
    + rewrite (take_ge (drop i l) m) by (rewrite length_drop; lia).
      apply take_ge. rewrite length_drop. lia.
  - rewrite (drop_ge l i) by lia. rewrite take_nil.
    apply length_zero_iff_nil. rewrite length_take. lia.
Qed.

Lemma slice_Z l (i : Z) (m : nat) :
  0 <= i -> slice l i (i + Z.of_nat m) = take m (drop (Z.to_nat i) l).
Proof. intros Hi. rewrite <- (slice_nat l (Z.to_nat i) m). f_equal; lia. Qed.

Lemma range_nat (k : nat) : range (Z.of_nat k) = map Z.of_nat (seq 0 k).
Proof. unfold range. by rewrite Nat2Z.id. Qed.

Lemma range_S (k : nat) :
  range (Z.of_nat (S k)) = range (Z.of_nat k) ++ [Z.of_nat k].
Proof. rewrite !range_nat, seq_S, map_app. done. Qed.

End Runtime.

Section Loops.

Context {St R : Type}.
Implicit Types (s : St) (f : flow St R).

(** The rule for a loop that is shown to end: an invariant, a measure that
    is positive while the guard holds and decreases with every pass, and a
    postcondition for both ways out. *)
Lemma while_total (cond : St -> outcome bool) (body : St -> outcome (flow St R))
    (Inv : St -> Prop) (mu : St -> nat) (Post : flow St R -> Prop) :
  (forall s, Inv s ->
     exists b, cond s = Returned b /\
       if b then
         (0 < mu s)%nat /\
         exists f, body s = Returned f /\
           match f with
           | Next s' => Inv s' /\ (mu s' < mu s)%nat
           | Return r => Post (Return r)
           end
       else Post (Next s)) ->
  forall fuel s, Inv s -> (mu s <= fuel)%nat ->
    exists f, while cond body fuel s = Returned f /\ Post f.
Proof.
  intros Hstep fuel. induction fuel as [|fuel IH]; intros s HI Hmu.
  - destruct (Hstep s HI) as (b & Hc & Hb). simpl. rewrite Hc. simpl.
    destruct b; [lia | eauto].
  - destruct (Hstep s HI) as (b & Hc & Hb). simpl. rewrite Hc. simpl.
    destruct b; [|eauto].
    destruct Hb as (Hpos & f & Hbody & Hf). rewrite Hbody. simpl.
    destruct f as [s'|r]; [|eauto].
    destruct Hf as [HI' Hlt]. apply IH; [done | lia].
Qed.

(** More fuel, and a body that returns at least what the old one did, do
    not change what a finished loop returned. *)
Lemma while_mono (cond : St -> outcome bool) (body body' : St -> outcome (flow St R))
    (fuel fuel' : nat) s f :
  (forall s f, body s = Returned f -> body' s = Returned f) ->
  (fuel <= fuel')%nat ->
  while cond body fuel s = Returned f -> while cond body' fuel' s = Returned f.
Proof.
  intros Hb. revert fuel' s. induction fuel as [|fuel IH]; intros fuel' s Hle.
  - destruct fuel'; simpl; destruct (cond s) as [[]| |]; simpl; done.
  - destruct fuel' as [|fuel']; [lia|]. simpl.
    destruct (cond s) as [[]| |]; simpl; try done.
    destruct (body s) as [g| |] eqn:Hg; simpl; try done.
    rewrite (Hb _ _ Hg). simpl. destruct g; [|done]. apply IH. lia.
Qed.

Lemma while_unfold (cond : St -> outcome bool) (body : St -> outcome (flow St R))
    (fuel : nat) s :
  while cond body (S fuel) s =
  (b <- cond s;;
   if b then
     f <- body s;;
     match f with
     | Next s' => while cond body fuel s'
     | Return r => Returned (Return r)
     end
   else Returned (Next s)).
Proof. done. Qed.

Lemma for_in_app {B : Type} (body : B -> St -> outcome (flow St R)) (xs ys : list B) s :
  for_in body (xs ++ ys) s =
  (f <- for_in body xs s;;
   match f with
   | Next s' => for_in body ys s'
   | Return r => Returned (Return r)
   end).
Proof.
  revert s. induction xs as [|x xs IH]; intros s; simpl; [done|].
  destruct (body x s) as [[s'|r]| |]; simpl; done.
Qed.

End Loops.

(** ** Occurrences and the reference search *)

Section ReferenceFacts.

Context {char : Type} `{EqDecision char}.
Implicit Types (text pattern : list char).

Lemma occ_take text pattern s :
  occ text pattern s <-> take (length pattern) (drop s text) = pattern.
Proof.
  split.
  - intros Ho. apply list_eq. intros k.
    destruct (decide (k < length pattern)%nat) as [Hk|Hk].
    + rewrite lookup_take_lt, lookup_drop by done. by apply Ho.
    + rewrite lookup_take_ge by lia. symmetry. apply lookup_ge_None. lia.
  - intros He k Hk. transitivity (take (length pattern) (drop s text) !! k).
    + rewrite lookup_take_lt, lookup_drop by done. done.
    + by rewrite He.
Qed.

Lemma occ_bound text pattern s :
  (0 < length pattern)%nat -> occ text pattern s ->
  (s + length pattern <= length text)%nat.
Proof.
  intros Hm Ho. specialize (Ho (length pattern - 1)%nat ltac:(lia)).
  destruct (lookup_lt_is_Some_2 pattern (length pattern - 1)%nat ltac:(lia)) as [c Hc].
  rewrite Hc in Ho. apply lookup_lt_Some in Ho. lia.
Qed.

Lemma occurs_at_occ text pattern i :
  occurs_at text pattern i <->
  0 <= i <= len text - len pattern /\ occ text pattern (Z.to_nat i).
Proof.
  unfold occurs_at. split; intros [Hr Ho]; split; try done.
  - apply occ_take. rewrite <- Ho at 2. rewrite <- slice_nat.
    unfold len. f_equal; lia.
  - apply occ_take in Ho. rewrite <- Ho at 2. rewrite <- slice_nat.
    unfold len. f_equal; lia.
Qed.

Lemma leftmost_found text pattern (s : nat) :
  (s + length pattern <= length text)%nat -> occ text pattern s ->
  (forall s', (s' < s)%nat -> ~ occ text pattern s') ->
  leftmost text pattern (Z.of_nat s).
Proof.
  intros Hb Ho Hmin. right. split.
  - apply occurs_at_occ. unfold len. split; [lia|]. by rewrite Nat2Z.id.
  - intros i Hi Hocc. apply occurs_at_occ in Hocc as [Hr Hocc].
    apply (Hmin (Z.to_nat i)); [lia | done].
Qed.

Lemma leftmost_none text pattern :
  (forall s, (s + length pattern <= length text)%nat -> ~ occ text pattern s) ->
  leftmost text pattern (-1).
Proof.
  intros Hno. left. split; [done|]. intros i Hocc.
  apply occurs_at_occ in Hocc as [Hr Hocc]. unfold len in Hr.
  apply (Hno (Z.to_nat i)); [lia | done].
Qed.

Lemma leftmost_unique text pattern r1 r2 :
  leftmost text pattern r1 -> leftmost text pattern r2 -> r1 = r2.
Proof.
  intros [[-> Hn1]|[Ho1 Hm1]] [[-> Hn2]|[Ho2 Hm2]]; try done.
  - by destruct (Hn1 r2).
  - by destruct (Hn2 r1).
  - destruct (Z.lt_trichotomy r1 r2) as [Hlt|[?|Hlt]]; [|done|].
    + by destruct (Hm2 r1).
    + by destruct (Hm1 r2).
Qed.

(** The first hit of [find] over consecutive numbers. *)
Lemma find_seq (f : Z -> bool) (a k : nat) :
  match List.find f (map Z.of_nat (seq a k)) with
  | Some i => exists s : nat, i = Z.of_nat s /\ (a <= s < a + k)%nat /\ f i = true /\
                forall s' : nat, (a <= s' < s)%nat -> f (Z.of_nat s') = false
  | None => forall s' : nat, (a <= s' < a + k)%nat -> f (Z.of_nat s') = false
  end.
Proof.
  revert a. induction k as [|k IH]; intros a; simpl.
  - intros s'. lia.
  - destruct (f (Z.of_nat a)) eqn:Hf.
    + exists a. repeat split; try done; lia.
    + specialize (IH (S a)). destruct (List.find f (map Z.of_nat (seq (S a) k))) as [i|].
      * destruct IH as (s & -> & Hr & Hfs & Hmin). exists s.
        repeat split; try done; try lia. intros s' Hs'.
        destruct (decide (s' = a)) as [->|]; [done|]. apply Hmin. lia.
      * intros s' Hs'. destruct (decide (s' = a)) as [->|]; [done|]. apply IH. lia.
Qed.

(** The reference search reports the leftmost occurrence. *)
Lemma naive_search_leftmost text pattern :
  leftmost text pattern (naive_search text pattern).
Proof.
  unfold naive_search, range.
  pose proof (find_seq (fun i => bool_decide (slice text i (i + len pattern) = pattern))
                0 (Z.to_nat (len text - len pattern + 1))) as Hf.
  destruct (List.find _ _) as [i|].
  - destruct Hf as (s & -> & Hr & Hfs & Hmin). apply bool_decide_eq_true in Hfs.
    right. split.
    + split; [unfold len in *; lia | done].
    + intros i Hi [Hri Hoi].
      specialize (Hmin (Z.to_nat i) ltac:(lia)). apply bool_decide_eq_false in Hmin.
      rewrite Z2Nat.id in Hmin by lia. done.
  - left. split; [done|]. intros i [Hri Hoi].
    specialize (Hf (Z.to_nat i) ltac:(lia)). apply bool_decide_eq_false in Hf.
    rewrite Z2Nat.id in Hf by lia. done.
Qed.

End ReferenceFacts.

(** ** Boyer-Moore-Horspool *)

Section Horspool.

Context {char : Type} `{Countable char}.
Implicit Types (text pattern l : list char) (c : char).

Lemma but_last_take l : but_last l = take (length l - 1) l.
Proof.
  unfold but_last, slice, clamp, len. simpl.
  rewrite Z.min_l by lia. simpl. f_equal. lia.
Qed.

Lemma length_range (k : nat) : length (range (Z.of_nat k)) = k.
Proof. rewrite range_nat, length_map, length_seq. done. Qed.

Lemma enumerate_snoc l c :
  enumerate (l ++ [c]) = enumerate l ++ [(len l, c)].
Proof.
  unfold enumerate, len. rewrite length_app. simpl.
  replace (length l + 1)%nat with (S (length l)) by lia.
  rewrite range_S.
  rewrite (zip_with_app pair (range _) [_] l [c]) by apply length_range. done.
Qed.

(** The table after the characters of [l] have been entered, for a pattern
    of length [m]. *)
Lemma shift_fold_spec (m : Z) l c :
  match fold_left (fun (shift : gmap char Z) '(i, ch) => <[ch := m - 1 - i]> shift)
          (enumerate l) ∅ !! c with
  | Some v => exists k : nat, l !! k = Some c /\ v = m - 1 - Z.of_nat k /\
                forall k', (k < k')%nat -> l !! k' <> Some c
  | None => c ∉ l
  end.
Proof.
  induction l as [|x l IH] using rev_ind; simpl.
  - rewrite lookup_empty. apply not_elem_of_nil.
  - rewrite enumerate_snoc, fold_left_app. simpl.
    destruct (decide (x = c)) as [->|Hne].
    + rewrite lookup_insert_eq. exists (length l). split; [|split].
      * rewrite lookup_app_r by lia. by rewrite Nat.sub_diag.
      * done.
      * intros k' Hk' Hl. apply lookup_lt_Some in Hl. rewrite length_app in Hl.
        simpl in Hl. lia.
    + rewrite lookup_insert_ne by done.
      destruct (fold_left _ _ _ !! c) as [v|].
      * destruct IH as (k & Hk & -> & Hlast). exists k. split; [|split; [done|]].
        { rewrite lookup_app_l; [done | by eapply lookup_lt_Some]. }
        intros k' Hk' Hl. destruct (decide (k' < length l)%nat).
        { rewrite lookup_app_l in Hl by done. by eapply Hlast. }
        rewrite lookup_app_r in Hl by lia.
        destruct (k' - length l)%nat; simpl in Hl; [congruence | done].
      * rewrite elem_of_app, list_elem_of_singleton. intros [?|?]; [done | congruence].
Qed.

(** What [shift.get(c, m)] gives for the table of [pattern]. *)
Lemma build_shift_spec pattern c :
  match build_shift pattern !! c with
  | Some v => exists k : nat, but_last pattern !! k = Some c /\
                v = len pattern - 1 - Z.of_nat k /\
                forall k', (k < k')%nat -> but_last pattern !! k' <> Some c
  | None => c ∉ but_last pattern
  end.
Proof. apply shift_fold_spec. Qed.

Lemma build_shift_pos pattern c v :
  build_shift pattern !! c = Some v -> 1 <= v <= len pattern - 1.
Proof.
  intros Hv. pose proof (build_shift_spec pattern c) as Hs. rewrite Hv in Hs.
  destruct Hs as (k & Hk & -> & _). apply lookup_lt_Some in Hk.
  rewrite but_last_take, length_take in Hk. unfold len. lia.
Qed.

Lemma dict_get_shift_bounds pattern c :
  (0 < length pattern)%nat ->
  1 <= dict_get (build_shift pattern) c (len pattern) <= len pattern.
Proof.
  intros Hm. unfold dict_get. destruct (build_shift pattern !! c) as [v|] eqn:Hv.
  - apply build_shift_pos in Hv. lia.
  - unfold len. lia.
Qed.

(** A character of the pattern, other than its last, bounds the shift. *)
Lemma dict_get_shift_le pattern c (q : nat) :
  (q + 1 < length pattern)%nat -> pattern !! q = Some c ->
  dict_get (build_shift pattern) c (len pattern) <= len pattern - 1 - Z.of_nat q.
Proof.
  intros Hq Hc.
  assert (but_last pattern !! q = Some c) as Hb.
  { rewrite but_last_take, lookup_take_lt by lia. done. }
  unfold dict_get. pose proof (build_shift_spec pattern c) as Hs.
  destruct (build_shift pattern !! c) as [v|].
  - destruct Hs as (k & Hk & -> & Hlast).
    destruct (decide (k < q)%nat) as [Hlt|Hge]; [|lia].
    by destruct (Hlast q Hlt).
  - destruct Hs. eapply list_elem_of_lookup_2. done.
Qed.

(** The right-to-left comparison of the window at [s]. *)
Lemma bmh_compare_spec (fuel : nat) text pattern (s : nat) :
  (0 < length pattern)%nat -> (s + length pattern <= length text)%nat ->
  (length pattern <= fuel)%nat ->
  exists j, bmh_compare fuel text pattern (Z.of_nat s) (len pattern - 1)
            = Returned (Next j) /\
    ((j < 0 /\ occ text pattern s) \/ (0 <= j /\ ~ occ text pattern s)).
Proof.
  intros Hm Hs Hfuel. unfold bmh_compare.
  set (Inv := fun j : Z => -1 <= j <= len pattern - 1 /\
    forall k : nat, j < Z.of_nat k -> (k < length pattern)%nat ->
      text !! (s + k)%nat = pattern !! k).
  set (Post := fun f : flow Z Empty_set => exists j, f = Next j /\
    ((j < 0 /\ occ text pattern s) \/ (0 <= j /\ ~ occ text pattern s))).
  enough (exists f, while
    (fun j => if 0 <=? j then
                p <- index pattern j;;
                t <- index text (Z.of_nat s + j);;
                Returned (bool_decide (p = t))
              else Returned false)
    (fun j => Returned (Next (j - 1))) fuel (len pattern - 1) = Returned f /\ Post f)
    as (f & Hf & j & -> & Hj) by eauto.
  apply (while_total _ _ Inv (fun j => Z.to_nat (j + 1)) Post).
  - intros j [Hr Hk]. unfold len in *.
    destruct (Z.leb_spec 0 j) as [Hj|Hj].
    + destruct (lookup_lt_is_Some_2 pattern (Z.to_nat j) ltac:(lia)) as [p Hp].
      destruct (lookup_lt_is_Some_2 text (s + Z.to_nat j)%nat ltac:(lia)) as [t Ht].
      rewrite (index_Z _ _ _ Hj Hp). simpl.
      rewrite (index_Z text (Z.of_nat s + j) t) by
        (try lia; by replace (Z.to_nat (Z.of_nat s + j)) with (s + Z.to_nat j)%nat by lia).
      simpl. eexists. split; [done|]. case_bool_decide as Heq.
      * split; [lia|]. eexists. split; [done|]. split; [|lia].
        split; [lia|]. intros k Hjk Hkm.
        destruct (decide (k = Z.to_nat j)) as [->|]; [congruence|]. apply Hk; lia.
      * exists j. split; [done|]. right. split; [done|]. intros Ho.
        specialize (Ho (Z.to_nat j) ltac:(lia)). congruence.
    + eexists. split; [done|]. exists j. split; [done|]. left. split; [done|].
      intros k Hkm. apply Hk; lia.
  - unfold Inv, len. split; [lia|]. intros k ? ?. lia.
  - unfold len. lia.
Qed.

(** One alignment: a confirmed occurrence is returned, and a shift moves
    the window forward past positions that cannot hold an occurrence. *)
Lemma bmh_body_spec (inner : nat) text pattern (s : nat) :
  (0 < length pattern)%nat -> (s + length pattern <= length text)%nat ->
  (length pattern <= inner)%nat ->
  exists f, bmh_body inner (build_shift pattern) text pattern (Z.of_nat s) = Returned f /\
    match f with
    | Return v => v = VInt (Z.of_nat s) /\ occ text pattern s
    | Next i' => exists d : nat, i' = Z.of_nat (s + d) /\ (1 <= d)%nat /\
                   forall s', (s <= s' < s + d)%nat -> ~ occ text pattern s'
    end.
Proof.
  intros Hm Hs Hin. unfold bmh_body.
  destruct (bmh_compare_spec inner text pattern s Hm Hs Hin) as (j & -> & Hj). simpl.
  destruct Hj as [[Hj Ho]|[Hj Hno]].
  - destruct (Z.ltb_spec j 0); [|lia]. eexists. split; [done|]. done.
  - destruct (Z.ltb_spec j 0); [lia|].
    destruct (lookup_lt_is_Some_2 text (s + (length pattern - 1))%nat ltac:(lia)) as [c Hc].
    rewrite (index_Z text _ c); cycle 1.
    { unfold len. lia. }
    { unfold len. by replace (Z.to_nat _) with (s + (length pattern - 1))%nat by lia. }
    simpl. eexists. split; [done|].
    pose proof (dict_get_shift_bounds pattern c Hm) as Hd.
    remember (dict_get (build_shift pattern) c (len pattern)) as d eqn:Hdd.
    unfold len in Hd.
    exists (Z.to_nat d). split; [lia|]. split; [lia|].
    intros s' Hs' Ho. destruct (decide (s' = s)) as [->|Hne]; [done|].
    assert (pattern !! (length pattern - 1 - (s' - s))%nat = Some c) as Hp.
    { rewrite <- Ho by lia. rewrite <- Hc. f_equal. lia. }
    apply dict_get_shift_le in Hp; [|lia]. rewrite <- Hdd in Hp. unfold len in Hp. lia.
Qed.

(** The scan from an alignment before which nothing occurs. *)
Lemma bmh_scan_spec (inner fuel : nat) text pattern (s : nat) :
  (0 < length pattern)%nat -> (length pattern <= length text)%nat ->
  (length pattern <= inner)%nat ->
  (length text - length pattern + 1 - s <= fuel)%nat ->
  (forall s', (s' < s)%nat -> ~ occ text pattern s') ->
  exists f r, bmh_scan inner fuel (build_shift pattern) text pattern (Z.of_nat s)
              = Returned f /\ result_of f = VInt r /\ leftmost text pattern r.
Proof.
  intros Hm Hmn Hin Hfuel Hbefore. unfold bmh_scan.
  set (Inv := fun i : Z => exists s : nat, i = Z.of_nat s /\
    forall s', (s' < s)%nat -> ~ occ text pattern s').
  set (Post := fun f : flow Z value =>
    exists r, result_of f = VInt r /\ leftmost text pattern r).
  enough (exists f, while (fun i => Returned (i <=? len text - len pattern))
    (bmh_body inner (build_shift pattern) text pattern) fuel (Z.of_nat s) = Returned f /\
    Post f) as (f & Hf & r & Hr & Hl) by eauto.
  apply (while_total _ _ Inv (fun i => Z.to_nat (len text - len pattern + 1 - i)) Post).
  - clear s Hfuel Hbefore. intros i (s & -> & Hbefore). eexists. split; [done|].
    unfold len. destruct (Z.leb_spec (Z.of_nat s) (Z.of_nat (length text) - Z.of_nat (length pattern)))
      as [Hle|Hgt].
    + split; [lia|].
      destruct (bmh_body_spec inner text pattern s Hm ltac:(lia) Hin) as (f & -> & Hf).
      eexists. split; [done|]. destruct f as [i'|v].
      * destruct Hf as (d & -> & Hd & Hskip). split; [|lia].
        exists (s + d)%nat. split; [done|]. intros s' Hs'.
        destruct (decide (s' < s)%nat); [by apply Hbefore | apply Hskip; lia].
      * destruct Hf as [-> Ho]. eexists. split; [done|].
        apply leftmost_found; [lia | done | done].
    + exists (-1). split; [done|]. apply leftmost_none. intros s' Hs'. apply Hbefore. lia.
  - exists s. done.
  - unfold len. lia.
Qed.

Lemma boyer_moore_horspool_naive (fuel : nat) text pattern :
  (length text <= fuel)%nat ->
  boyer_moore_horspool fuel text pattern = Returned (VInt (naive_search text pattern)).
Proof.
  intros Hfuel. unfold boyer_moore_horspool.
  pose proof (naive_search_leftmost text pattern) as Hn.
  unfold len. destruct (Z.eqb_spec (Z.of_nat (length pattern)) 0) as [Hm0|Hm0].
  - do 2 f_equal. apply (leftmost_unique text pattern); [|done].
    replace 0 with (Z.of_nat 0) by done. apply leftmost_found.
    + lia.
    + intros k Hk. lia.
    + intros s' Hs'. lia.
  - destruct (Z.gtb_spec (Z.of_nat (length pattern)) (Z.of_nat (length text))) as [Hgt|Hle].
    + do 2 f_equal. apply (leftmost_unique text pattern); [|done].
      apply leftmost_none. intros s Hs. lia.
    + destruct (bmh_scan_spec fuel fuel text pattern 0) as (f & r & Hf & Hr & Hl);
        try lia.
      change (Z.of_nat 0) with 0 in Hf. rewrite Hf. simpl.
      rewrite (leftmost_unique _ _ _ _ Hn Hl). destruct f; simpl in *; congruence.
Qed.

End Horspool.

(** ** Knuth-Morris-Pratt *)

Section Borders.

Context {char : Type} `{EqDecision char}.
Implicit Types (p s : list char).

Lemma bord_zero p i : (0 < i <= length p)%nat -> bord p i 0.
Proof. intros Hi. repeat split; lia. Qed.

(** A border of a border is a border. *)
Lemma bord_trans p i q r : bord p i q -> bord p q r -> bord p i r.
Proof.
  intros (Hqi & Hi & Hq) (Hrq & _ & Hr). repeat split; try lia.
  intros k Hk. rewrite (Hr k Hk), (Hq (q - r + k)%nat) by lia. f_equal; lia.
Qed.

(** Of two borders the shorter is a border of the longer. *)
Lemma bord_between p i q r : bord p i q -> bord p i r -> (r < q)%nat -> bord p q r.
Proof.
  intros (Hqi & Hi & Hq) (Hri & _ & Hr) Hrq. repeat split; try lia.
  intros k Hk. rewrite (Hr k Hk), (Hq (q - r + k)%nat) by lia. f_equal; lia.
Qed.

Lemma bord_extend p i q :
  bord p i q -> (i < length p)%nat -> p !! q = p !! i -> bord p (S i) (S q).
Proof.
  intros (Hqi & Hi & Hq) Him Heq. repeat split; try lia.
  intros k Hk. destruct (decide (k = q)) as [->|Hne].
  - rewrite Heq. f_equal; lia.
  - rewrite (Hq k) by lia. f_equal; lia.
Qed.

Lemma bord_shrink p i q : bord p (S i) (S q) -> bord p i q /\ p !! q = p !! i.
Proof.
  intros (Hqi & Hi & Hq). split.
  - repeat split; try lia. intros k Hk. rewrite (Hq k) by lia. f_equal; lia.
  - rewrite (Hq q) by lia. f_equal; lia.
Qed.

(** [bord] on a pattern is [is_border] on its prefixes. *)
Lemma bord_is_border p i q :
  (i <= length p)%nat -> bord p i q <-> is_border (take i p) q.
Proof.
  intros Hi. unfold is_border. rewrite length_take, Nat.min_l by done. split.
  - intros (Hqi & _ & Hq). split; [done|]. apply list_eq. intros k.
    rewrite lookup_drop. destruct (decide (k < q)%nat) as [Hk|Hk].
    + rewrite (lookup_take_lt (take i p)), !lookup_take_lt by lia. by apply Hq.
    + rewrite (lookup_take_ge (take i p)), lookup_take_ge by lia. done.
  - intros (Hqi & He). repeat split; try done. intros k Hk.
    assert (take q (take i p) !! k = drop (i - q) (take i p) !! k) as Hl by (by rewrite He).
    rewrite lookup_drop, (lookup_take_lt (take i p)), !lookup_take_lt in Hl by lia. done.
Qed.

End Borders.

Section KMP.

Context {char : Type} `{EqDecision char}.
Implicit Types (text pattern : list char) (lps : list Z).

Lemma lps_ok_snoc pattern lps (i b : nat) :
  (i < length lps)%nat -> lps_ok pattern lps i -> bord pattern (S i) b ->
  (forall b', bord pattern (S i) b' -> (b' <= b)%nat) ->
  lps_ok pattern (<[i := Z.of_nat b]> lps) (S i).
Proof.
  intros Hi Hok Hb Hmax k Hk. destruct (decide (k = i)) as [->|Hne].
  - exists b. rewrite list_lookup_insert_eq by done. done.
  - destruct (Hok k ltac:(lia)) as (b0 & Hl & Hb0). exists b0.
    rewrite list_lookup_insert_ne by done. done.
Qed.

Lemma lps_body_spec pattern i l lps :
  lps_inv pattern (Z.of_nat i, Z.of_nat l, lps) -> (i < length pattern)%nat ->
  exists i' l' lps', lps_body pattern (Z.of_nat i, Z.of_nat l, lps)
                     = Returned (Next (Z.of_nat i', Z.of_nat l', lps')) /\
    lps_inv pattern (Z.of_nat i', Z.of_nat l', lps') /\
    (2 * i - l < 2 * i' - l')%nat /\ (l' < i')%nat.
Proof.
  intros (i0 & l0 & lps0 & Hst & Hi & Hlen & Hok & Hb & Hmax) Him.
  assert (i0 = i /\ l0 = l /\ lps0 = lps) as (-> & -> & ->).
  { inversion Hst. repeat split; try lia; done. }
  clear Hst. pose proof Hb as (Hli & _ & _).
  destruct (lookup_lt_is_Some_2 pattern i Him) as [a Ha].
  destruct (lookup_lt_is_Some_2 pattern l ltac:(lia)) as [b Hpb].
  unfold lps_body. rewrite (index_nat _ _ _ Ha). simpl.
  rewrite (index_nat _ _ _ Hpb). simpl. case_bool_decide as Hab.
  - subst b. replace (Z.of_nat l + 1) with (Z.of_nat (S l)) by lia.
    rewrite setitem_nat by lia. simpl.
    replace (Z.of_nat i + 1) with (Z.of_nat (S i)) by lia.
    assert (forall b', bord pattern (S i) b' -> (b' <= S l)%nat) as Hmax'.
    { intros [|q] Hq; [lia|]. apply bord_shrink in Hq as [Hq Heq].
      destruct (decide (l < q)%nat) as [Hlq|]; [|lia]. by destruct (Hmax q Hq Hlq). }
    assert (bord pattern (S i) (S l)) as Hb'.
    { apply bord_extend; [done | done | congruence]. }
    exists (S i), (S l), (<[i := Z.of_nat (S l)]> lps). split; [done|].
    split; [|lia]. exists (S i), (S l), (<[i := Z.of_nat (S l)]> lps).
    split; [done|]. split; [lia|]. split; [by rewrite length_insert|].
    split; [apply lps_ok_snoc; try done; lia|]. split; [done|].
    intros q Hq Hlq. apply Hmax' in Hq. lia.
  - destruct (Z.eqb_spec (Z.of_nat l) 0) as [Hl0|Hl0]; simpl.
    + assert (l = 0)%nat as -> by lia.
      rewrite setitem_nat by lia. simpl.
      replace (Z.of_nat i + 1) with (Z.of_nat (S i)) by lia.
      assert (forall b', bord pattern (S i) b' -> (b' <= 0)%nat) as Hmax'.
      { intros [|q] Hq; [lia|]. apply bord_shrink in Hq as [Hq Heq].
        destruct (decide (0 < q)%nat) as [Hlq|]; [by destruct (Hmax q Hq Hlq)|].
        assert (q = 0)%nat as -> by lia. congruence. }
      assert (bord pattern (S i) 0) as Hb' by (apply bord_zero; lia).
      exists (S i), 0%nat, (<[i := 0]> lps). split; [done|].
      split; [|lia]. exists (S i), 0%nat, (<[i := 0]> lps).
      split; [done|]. split; [lia|]. split; [by rewrite length_insert|].
      split; [apply (lps_ok_snoc pattern lps i 0); try done; lia|]. split; [done|].
      intros q Hq Hlq. apply Hmax' in Hq. lia.
    + destruct (Hok (l - 1)%nat ltac:(lia)) as (b0 & Hl & Hb0 & Hmax0).
      replace (S (l - 1)) with l in * by lia.
      replace (Z.of_nat l - 1) with (Z.of_nat (l - 1)) by lia.
      rewrite (index_nat _ _ _ Hl). simpl. pose proof Hb0 as (Hb0l & _ & _).
      exists i, b0, lps. split; [done|]. split; [|lia].
      exists i, b0, lps. split; [done|]. split; [lia|]. split; [done|].
      split; [done|]. split; [by eapply bord_trans|].
      intros q Hq Hlq. destruct (decide (l < q)%nat) as [Hgt|Hle]; [by apply Hmax|].
      destruct (decide (q = l)) as [->|Hne]; [congruence|].
      assert (bord pattern l q) as Hlq' by (eapply bord_between; [apply Hb | done | lia]).
      apply Hmax0 in Hlq'. lia.
Qed.

(** The finished table holds the longest border of every prefix. *)
Lemma build_lps_spec (fuel : nat) pattern :
  (0 < length pattern)%nat -> (2 * length pattern <= fuel)%nat ->
  exists lps, build_lps fuel pattern = Returned lps /\
    length lps = length pattern /\ lps_ok pattern lps (length pattern).
Proof.
  intros Hm Hfuel. unfold build_lps.
  set (Post := fun f : flow (Z * Z * list Z) Empty_set => exists i l lps,
    f = Next (i, l, lps) /\ length lps = length pattern /\
    lps_ok pattern lps (length pattern)).
  enough (exists f, while (fun '(i, _, _) => Returned (i <? len pattern))
    (lps_body pattern) fuel (1, 0, repeat_list 0 (len pattern)) = Returned f /\ Post f)
    as (f & -> & i & l & lps & -> & Hlen & Hok) by (simpl; eauto).
  apply (while_total _ _ (lps_inv pattern)
    (fun '(i, l, _) => Z.to_nat (2 * len pattern - 2 * i + l)) Post).
  - intros st Hinv. pose proof Hinv as (i & l & lps & -> & Hi & Hlen & Hok & Hb & Hmax).
    eexists. split; [done|]. unfold len.
    destruct (Z.ltb_spec (Z.of_nat i) (Z.of_nat (length pattern))) as [Hlt|Hge].
    + pose proof Hb as (Hli & _ & _). split; [lia|].
      destruct (lps_body_spec pattern i l lps Hinv ltac:(lia))
        as (i' & l' & lps' & -> & Hinv' & Hmu & Hli').
      eexists. split; [done|]. split; [done|].
      destruct Hinv' as (i0 & l0 & lps0 & Hst & Hi0 & _).
      inversion Hst. lia.
    + exists (Z.of_nat i), (Z.of_nat l), lps. split; [done|]. split; [done|].
      by replace (length pattern) with i by lia.
  - exists 1%nat, 0%nat, (repeat_list 0 (len pattern)). split; [done|].
    unfold repeat_list, len. rewrite Nat2Z.id, length_replicate.
    split; [lia|]. split; [done|]. split; [|split].
    + intros k Hk. assert (k = 0)%nat as -> by lia. exists 0%nat.
      split; [by apply lookup_replicate_2|]. split; [apply bord_zero; lia|].
      intros b' (Hb' & _). lia.
    + apply bord_zero. lia.
    + intros q (Hq & _) ?. lia.
  - unfold len. lia.
Qed.

(** One pass through the scanning loop. *)
Lemma kmp_body_spec text pattern lps i j :
  length lps = length pattern -> lps_ok pattern lps (length pattern) ->
  kmp_inv text pattern (Z.of_nat i, Z.of_nat j) -> (i < length text)%nat ->
  exists f, kmp_body lps text pattern (Z.of_nat i, Z.of_nat j) = Returned f /\
    match f with
    | Return v => exists r, v = VInt r /\ leftmost text pattern r
    | Next st => exists i' j' : nat, st = (Z.of_nat i', Z.of_nat j') /\
                   kmp_inv text pattern st /\ (2 * i - j < 2 * i' - j')%nat /\
                   (j' <= i')%nat
    end.
Proof.
  intros Hlen Hok (i0 & j0 & Hst & Hji & Hjm & Hpre & Hno) Hin.
  assert (i0 = i /\ j0 = j) as (-> & ->) by (inversion Hst; lia). clear Hst.
  destruct (lookup_lt_is_Some_2 text i Hin) as [a Ha].
  destruct (lookup_lt_is_Some_2 pattern j Hjm) as [b Hb].
  unfold kmp_body. rewrite (index_nat _ _ _ Ha). simpl.
  rewrite (index_nat _ _ _ Hb). simpl. case_bool_decide as Hab.
  - subst b. unfold len.
    assert (forall k, (k < S j)%nat -> pattern !! k = text !! (S i - S j + k)%nat) as Hpre'.
    { intros k Hk. destruct (decide (k = j)) as [->|Hne].
      - rewrite Hb, <- Ha. f_equal; lia.
      - rewrite Hpre by lia. f_equal; lia. }
    destruct (Z.eqb_spec (Z.of_nat j + 1) (Z.of_nat (length pattern))) as [Hfull|Hpart].
    + eexists. split; [done|]. exists (Z.of_nat (i - j)). split; [do 2 f_equal; lia|].
      apply leftmost_found; [lia| |done].
      intros k Hk. rewrite Hpre' by lia. f_equal; lia.
    + eexists. split; [done|]. exists (S i), (S j). split; [f_equal; lia|].
      split; [|lia]. exists (S i), (S j). split; [f_equal; lia|].
      split; [lia|]. split; [lia|]. split; [done|].
      intros s Hs. apply Hno. lia.
  - destruct (Z.eqb_spec (Z.of_nat j) 0) as [Hj0|Hj0]; simpl.
    + assert (j = 0)%nat as -> by lia.
      eexists. split; [done|]. exists (S i), 0%nat. split; [f_equal; lia|].
      split; [|lia]. exists (S i), 0%nat. split; [f_equal; lia|].
      split; [lia|]. split; [lia|]. split; [intros k Hk; lia|].
      intros s Hs Ho. destruct (decide (s = i)) as [->|Hne].
      * specialize (Ho 0%nat ltac:(lia)). rewrite Nat.add_0_r in Ho. congruence.
      * apply (Hno s); [lia | done].
    + destruct (Hok (j - 1)%nat ltac:(lia)) as (b0 & Hl & Hb0 & Hmax0).
      replace (S (j - 1)) with j in * by lia.
      replace (Z.of_nat j - 1) with (Z.of_nat (j - 1)) by lia.
      rewrite (index_nat _ _ _ Hl). simpl. pose proof Hb0 as (Hb0j & _ & Hb0eq).
      eexists. split; [done|]. exists i, b0. split; [done|]. split; [|lia].
      exists i, b0. split; [done|]. split; [lia|]. split; [lia|]. split.
      * intros k Hk. rewrite Hb0eq, Hpre by lia. f_equal; lia.
      * intros s Hs Ho. destruct (decide (s < i - j)%nat) as [Hlt|Hge]; [by apply (Hno s)|].
        destruct (decide (s = i - j)%nat) as [->|Hne].
        { specialize (Ho j Hjm). replace (i - j + j)%nat with i in Ho by lia. congruence. }
        assert (bord pattern j (i - s)) as Hbord.
        { repeat split; try lia. intros k Hk.
          rewrite <- (Ho k) by lia. rewrite (Hpre (j - (i - s) + k)%nat) by lia.
          f_equal; lia. }
        apply Hmax0 in Hbord. lia.
Qed.

(** The scan reports the leftmost occurrence. *)
Lemma kmp_scan_spec (fuel : nat) text pattern lps :
  (0 < length pattern)%nat ->
  length lps = length pattern -> lps_ok pattern lps (length pattern) ->
  (2 * length text <= fuel)%nat ->
  exists f r, kmp_scan fuel lps text pattern (0, 0) = Returned f /\
    result_of f = VInt r /\ leftmost text pattern r.
Proof.
  intros Hm Hlen Hok Hfuel. unfold kmp_scan.
  set (Post := fun f : flow (Z * Z) value =>
    exists r, result_of f = VInt r /\ leftmost text pattern r).
  enough (exists f, while (fun '(i, _) => Returned (i <? len text))
    (kmp_body lps text pattern) fuel (0, 0) = Returned f /\ Post f)
    as (f & Hf & r & Hr & Hl) by eauto.
  apply (while_total _ _ (kmp_inv text pattern)
    (fun '(i, j) => Z.to_nat (2 * len text - 2 * i + j)) Post).
  - intros st Hinv. pose proof Hinv as (i & j & -> & Hji & Hjm & Hpre & Hno).
    eexists. split; [done|]. unfold len.
    destruct (Z.ltb_spec (Z.of_nat i) (Z.of_nat (length text))) as [Hlt|Hge].
    + split; [lia|].
      destruct (kmp_body_spec text pattern lps i j Hlen Hok Hinv ltac:(lia))
        as (f & -> & Hf).
      eexists. split; [done|]. destruct f as [st'|v].
      * destruct Hf as (i' & j' & -> & Hinv' & Hmu & Hji'). split; [done|].
        destruct Hinv' as (i0 & j0 & Hst & Hi0 & _). inversion Hst. lia.
      * destruct Hf as (r & -> & Hl). by exists r.
    + exists (-1). split; [done|]. apply leftmost_none.
      intros s Hs. apply Hno. lia.
  - exists 0%nat, 0%nat. split; [done|]. split; [lia|]. split; [lia|].
    split; intros ? ?; lia.
  - unfold len. lia.
Qed.

Lemma kmp_search_naive (fuel : nat) text pattern :
  (2 * length text <= fuel)%nat ->
  kmp_search fuel text pattern = Returned (VInt (naive_search text pattern)).
Proof.
  intros Hfuel. unfold kmp_search.
  pose proof (naive_search_leftmost text pattern) as Hn.
  unfold len. destruct (Z.eqb_spec (Z.of_nat (length pattern)) 0) as [Hm0|Hm0].
  - do 2 f_equal. apply (leftmost_unique text pattern); [|done].
    replace 0 with (Z.of_nat 0) by done. apply leftmost_found.
    + lia.
    + intros k Hk. lia.
    + intros s' Hs'. lia.
  - destruct (Z.gtb_spec (Z.of_nat (length pattern)) (Z.of_nat (length text))) as [Hgt|Hle].
    + do 2 f_equal. apply (leftmost_unique text pattern); [|done].
      apply leftmost_none. intros s Hs. lia.
    + destruct (build_lps_spec fuel pattern) as (lps & -> & Hlen & Hok); try lia.
      simpl.
      destruct (kmp_scan_spec fuel text pattern lps) as (f & r & -> & Hr & Hl);
        try done; try lia.
      simpl. rewrite (leftmost_unique _ _ _ _ Hn Hl). destruct f; simpl in *; congruence.
Qed.

End KMP.

(** ** Rabin-Karp *)

Section RabinKarp.

Context {char : Type} `{EqDecision char}.
Variable ord : char -> Z.
Implicit Types (text pattern w : list char) (c : char).

Lemma poly_sum_snoc base w c :
  poly_sum ord base (w ++ [c]) = poly_sum ord base w * base + ord c.
Proof.
  induction w as [|x w IH]; simpl.
  - unfold len. simpl. lia.
  - rewrite IH. unfold len. rewrite length_app. simpl.
    replace (Z.of_nat (length w + 1)) with (Z.succ (Z.of_nat (length w))) by lia.
    rewrite Z.pow_succ_r by lia. ring.
Qed.

Lemma horner_snoc base md w c :
  horner ord base md (w ++ [c]) = (horner ord base md w * base + ord c) mod md.
Proof. unfold horner. by rewrite fold_left_app. Qed.

(** The accumulated hash is the polynomial hash. *)
Lemma horner_poly base md w : horner ord base md w = poly_hash ord base md w.
Proof.
  unfold poly_hash. induction w as [|c w IH] using rev_ind.
  - done.
  - rewrite horner_snoc, IH, poly_sum_snoc.
    rewrite <- (Zplus_mod_idemp_l (poly_sum ord base w mod md * base)).
    rewrite Zmult_mod_idemp_l, Zplus_mod_idemp_l. done.
Qed.

Lemma mod_ok a md : md <> 0 -> mod_ a md = Returned (a mod md).
Proof. intros Hmd. unfold mod_. by destruct (Z.eqb_spec md 0). Qed.

(** The first loop, after [k] characters. *)
Lemma rk_init_prefix text pattern base md (k : nat) :
  md <> 0 -> (k <= length pattern)%nat -> (k <= length text)%nat ->
  for_in (rk_init_body ord text pattern base md) (range (Z.of_nat k)) (0, 0)
  = Returned (Next (horner ord base md (take k pattern),
                    horner ord base md (take k text))).
Proof.
  intros Hmd. induction k as [|k IH]; intros Hp Ht; [done|].
  rewrite range_S, for_in_app, IH by lia. simpl.
  destruct (lookup_lt_is_Some_2 pattern k ltac:(lia)) as [pc Hpc].
  destruct (lookup_lt_is_Some_2 text k ltac:(lia)) as [tc Htc].
  rewrite (index_nat _ _ _ Hpc). simpl. rewrite mod_ok by done. simpl.
  rewrite (index_nat _ _ _ Htc). simpl. rewrite mod_ok by done. simpl.
  rewrite (take_S_r _ _ _ Hpc), (take_S_r _ _ _ Htc), !horner_snoc. done.
Qed.

Lemma rk_init_spec text pattern base md :
  md <> 0 -> (length pattern <= length text)%nat ->
  rk_init ord text pattern base md
  = Returned (Next (poly_hash ord base md pattern,
                    poly_hash ord base md (take (length pattern) text))).
Proof.
  intros Hmd Hle. unfold rk_init, len. rewrite rk_init_prefix by (done || lia).
  rewrite firstn_all, !horner_poly. done.
Qed.

(** Sliding a window of length [m >= 1] by one position. *)
Lemma window_step text (i m : nat) c c' :
  (0 < m)%nat -> text !! i = Some c -> text !! (i + m)%nat = Some c' ->
  exists w, take m (drop i text) = c :: w /\
            take m (drop (S i) text) = w ++ [c'] /\ length w = (m - 1)%nat.
Proof.
  intros Hm Hc Hc'. destruct m as [|m]; [lia|].
  exists (take m (drop (S i) text)). split; [|split].
  - rewrite (drop_S _ _ _ Hc). done.
  - apply take_S_r. rewrite lookup_drop. rewrite <- Hc'. f_equal; lia.
  - rewrite length_take, length_drop. apply lookup_lt_Some in Hc'. lia.
Qed.

(** The two statements of the rolling update, on the hash of a window. *)
Lemma rk_roll_spec text base md (i m : nat) :
  md <> 0 -> (0 < m)%nat -> (i + m < length text)%nat ->
  exists w c',
    take m (drop (S i) text) = w ++ [c'] /\
    rk_drop ord text md (base ^ (Z.of_nat m - 1) mod md) (Z.of_nat i)
      (poly_hash ord base md (take m (drop i text)))
    = Returned (poly_hash ord base md w) /\
    rk_push ord text base md (Z.of_nat m) (Z.of_nat i) (poly_hash ord base md w)
    = Returned (poly_hash ord base md (take m (drop (S i) text))).
Proof.
  intros Hmd Hm Him.
  destruct (lookup_lt_is_Some_2 text i ltac:(lia)) as [c Hc].
  destruct (lookup_lt_is_Some_2 text (i + m)%nat ltac:(lia)) as [c' Hc'].
  destruct (window_step text i m c c' Hm Hc Hc') as (w & Hw & Hw' & Hlw).
  exists w, c'. split; [done|]. split.
  - unfold rk_drop. rewrite (index_nat _ _ _ Hc). simpl. rewrite mod_ok by done.
    f_equal. rewrite Hw. unfold poly_hash. simpl. unfold len. rewrite Hlw.
    replace (Z.of_nat (m - 1)) with (Z.of_nat m - 1) by lia.
    set (B := base ^ (Z.of_nat m - 1)). set (P := poly_sum ord base w).
    rewrite (Z.mod_eq (ord c * B + P) md), (Z.mod_eq B md) by done.
    replace (ord c * B + P - md * ((ord c * B + P) / md) - ord c * (B - md * (B / md)))
      with (P + (ord c * (B / md) - (ord c * B + P) / md) * md) by ring.
    apply Z_mod_plus_full.
  - unfold rk_push. replace (Z.of_nat i + Z.of_nat m) with (Z.of_nat (i + m)) by lia.
    rewrite (index_nat _ _ _ Hc'). simpl. rewrite mod_ok by done.
    f_equal. rewrite Hw'. unfold poly_hash. rewrite poly_sum_snoc.
    rewrite <- (Zplus_mod_idemp_l (poly_sum ord base w mod md * base)).
    rewrite Zmult_mod_idemp_l, Zplus_mod_idemp_l. done.
Qed.

(** One pass through the scanning loop when the window hash is right: an
    occurrence is returned, anything else is passed over and the hash
    rolled. *)
Lemma rk_body_spec text pattern base md (i : nat) :
  md <> 0 -> (0 < length pattern)%nat -> (i + length pattern <= length text)%nat ->
  let m := length pattern in
  let h := base ^ (len pattern - 1) mod md in
  let t := poly_hash ord base md (take m (drop i text)) in
  let run := rk_body ord text pattern base md h (poly_hash ord base md pattern)
               (Z.of_nat i) t in
  (occ text pattern i /\ run = Returned (Return (VInt (Z.of_nat i)))) \/
  (~ occ text pattern i /\
   run = Returned (Next (if (i + m <? length text)%nat
                         then poly_hash ord base md (take m (drop (S i) text))
                         else t))).
Proof.
  intros Hmd Hm Him m h t run. subst run. unfold rk_body.
  replace (slice text (Z.of_nat i) (Z.of_nat i + len pattern))
    with (take m (drop i text)) by (symmetry; apply slice_nat).
  case_bool_decide as Hocc.
  - left. split; [by apply occ_take|]. subst t. rewrite Hocc.
    rewrite Z.eqb_refl. done.
  - right. split; [by rewrite occ_take|].
    assert (forall (b : bool) (x : outcome (flow Z value)), (if b then x else x) = x)
      as -> by (by intros []).
    unfold len. fold m.
    destruct (Z.ltb_spec (Z.of_nat i) (Z.of_nat (length text) - Z.of_nat m)) as [Hlt|Hge].
    + destruct (Nat.ltb_spec (i + m) (length text)) as [_|?]; [|lia].
      destruct (rk_roll_spec text base md i m Hmd Hm ltac:(lia)) as (w & c' & Hw & Hd & Hp).
      subst h t. unfold len. fold m. rewrite Hd. simpl. rewrite Hp. done.
    + destruct (Nat.ltb_spec (i + m) (length text)) as [?|_]; [lia|]. done.
Qed.

(** The scanning loop after [k] positions. *)
Lemma rk_loop_prefix text pattern base md (k : nat) :
  md <> 0 -> (0 < length pattern)%nat -> (k + length pattern <= length text + 1)%nat ->
  exists f,
    for_in (rk_body ord text pattern base md (base ^ (len pattern - 1) mod md)
              (poly_hash ord base md pattern))
      (range (Z.of_nat k)) (poly_hash ord base md (take (length pattern) text))
    = Returned f /\
    match f with
    | Return v => exists r, v = VInt r /\ leftmost text pattern r
    | Next t =>
        (forall s, (s < k)%nat -> ~ occ text pattern s) /\
        ((k + length pattern <= length text)%nat ->
         t = poly_hash ord base md (take (length pattern) (drop k text)))
    end.
Proof.
  intros Hmd Hm. induction k as [|k IH]; intros Hk.
  - eexists. split; [done|]. split; [intros s; lia | done].
  - destruct (IH ltac:(lia)) as (f & Hf & Hpost). rewrite range_S, for_in_app, Hf. simpl.
    destruct f as [t|v]; [|eauto]. destruct Hpost as [Hno Ht].
    rewrite Ht by lia.
    destruct (rk_body_spec text pattern base md k Hmd Hm ltac:(lia)) as [[Ho ->]|[Ho ->]]; simpl.
    + eexists. split; [done|]. eexists. split; [done|]. apply leftmost_found; [lia|done|done].
    + eexists. split; [done|]. split.
      * intros s Hs. destruct (decide (s = k)) as [->|]; [done | apply Hno; lia].
      * intros Hle. destruct (Nat.ltb_spec (k + length pattern) (length text)); [done | lia].
Qed.

(** The loop head [k] is reached, with the hash of the window at [k], when
    the pattern occurs at no position before [k]. *)
Lemma rk_loop_reach text pattern base md (k : nat) :
  md <> 0 -> (0 < length pattern)%nat -> (k + length pattern <= length text)%nat ->
  (forall s, (s < k)%nat -> ~ occ text pattern s) ->
  for_in (rk_body ord text pattern base md (base ^ (len pattern - 1) mod md)
            (poly_hash ord base md pattern))
    (range (Z.of_nat k)) (poly_hash ord base md (take (length pattern) text))
  = Returned (Next (poly_hash ord base md (take (length pattern) (drop k text)))).
Proof.
  intros Hmd Hm. induction k as [|k IH]; intros Hk Hno; [done|].
  rewrite range_S, for_in_app, IH by (lia || (intros s Hs; apply Hno; lia)). simpl.
  destruct (rk_body_spec text pattern base md k Hmd Hm ltac:(lia)) as [[Ho _]|[_ ->]].
  - destruct (Hno k); [lia | done].
  - destruct (Nat.ltb_spec (k + length pattern) (length text)); [done | lia].
Qed.

Lemma rabin_karp_search_naive text pattern base md :
  md <> 0 ->
  rabin_karp_search ord text pattern base md
  = Returned (VInt (naive_search text pattern)).
Proof.
  intros Hmd. unfold rabin_karp_search.
  pose proof (naive_search_leftmost text pattern) as Hn.
  destruct (Z.eqb_spec (len pattern) 0) as [Hm0|Hm0].
  - do 2 f_equal. apply (leftmost_unique text pattern); [|done].
    replace 0 with (Z.of_nat 0) by done. unfold len in Hm0. apply leftmost_found.
    + lia.
    + intros k Hk. lia.
    + intros s' Hs'. lia.
  - destruct (Z.gtb_spec (len pattern) (len text)) as [Hgt|Hle].
    + do 2 f_equal. apply (leftmost_unique text pattern); [|done].
      unfold len in *. apply leftmost_none. intros s Hs. lia.
    + unfold pow_mod. destruct (Z.eqb_spec md 0) as [?|_]; [done|]. simpl.
      unfold len in Hm0, Hle. rewrite rk_init_spec by (done || lia). simpl.
      replace (len text - len pattern + 1)
        with (Z.of_nat (length text - length pattern + 1)) by (unfold len; lia).
      destruct (rk_loop_prefix text pattern base md (length text - length pattern + 1)
        Hmd ltac:(lia) ltac:(lia)) as (f & -> & Hpost). simpl.
      destruct f as [t|v].
      * destruct Hpost as [Hno _]. do 2 f_equal.
        apply (leftmost_unique text pattern); [|done].
        apply leftmost_none. intros s Hs. apply Hno. lia.
      * destruct Hpost as (r & -> & Hl). do 2 f_equal.
        by apply (leftmost_unique text pattern).
Qed.

End RabinKarp.

(** ** Binary search for the upper bound *)

Section BinarySearchFacts.

Context {A : Type}.
Variable ge : A -> A -> bool.
Hypothesis ge_refl : forall a, ge a a = true.
Hypothesis ge_trans : forall a b c, ge a b = true -> ge b c = true -> ge a c = true.
Implicit Types (arr : list A) (x : A).

Lemma sortedb_lookup arr :
  sortedb ge arr = true ->
  forall i j a b, (i <= j)%nat -> arr !! i = Some a -> arr !! j = Some b -> ge b a = true.
Proof.
  induction arr as [|y arr IH]; intros Hs i j a b Hij Hi Hj; [done|].
  simpl in Hs. apply andb_prop in Hs as [Hall Hs].
  destruct (decide (i = j)) as [->|Hne]; [by simplify_eq|].
  destruct j as [|j]; [lia|]. simpl in Hj. destruct i as [|i]; simpl in Hi.
  - simplify_eq. rewrite forallb_forall in Hall. apply Hall.
    apply list_elem_of_In. by eapply list_elem_of_lookup_2.
  - eapply (IH Hs i j); [lia | done | done].
Qed.

Lemma bs_body_spec arr x lo hi1 iterations :
  sortedb ge arr = true ->
  bs_inv ge arr x (Z.of_nat lo, Z.of_nat hi1 - 1, iterations, arr !! hi1) ->
  (lo < hi1)%nat ->
  exists lo' hi1' iterations',
    bs_body ge arr x (Z.of_nat lo, Z.of_nat hi1 - 1, iterations, arr !! hi1)
    = Returned (Next (Z.of_nat lo', Z.of_nat hi1' - 1, iterations', arr !! hi1')) /\
    bs_inv ge arr x (Z.of_nat lo', Z.of_nat hi1' - 1, iterations', arr !! hi1') /\
    (hi1' - lo' < hi1 - lo)%nat.
Proof.
  intros Hsort (lo0 & hi0 & it0 & Hst & Hr & Hlow & Hhigh) Hlt.
  assert (lo0 = lo /\ hi0 = hi1) as (-> & ->) by (inversion Hst; lia). clear Hst it0.
  unfold bs_body.
  set (mid := (Z.of_nat lo + (Z.of_nat hi1 - 1)) / 2).
  assert (Z.of_nat lo <= mid <= Z.of_nat hi1 - 1) as Hmid.
  { subst mid. split.
    - apply Z.div_le_lower_bound; lia.
    - apply Z.div_le_upper_bound; lia. }
  clearbody mid.
  destruct (lookup_lt_is_Some_2 arr (Z.to_nat mid) ltac:(lia)) as [a Ha].
  rewrite (index_Z arr mid a ltac:(lia) Ha). simpl.
  destruct (ge a x) eqn:Hge.
  - exists lo, (Z.to_nat mid), (iterations + 1).
    replace (Z.of_nat (Z.to_nat mid)) with mid by lia. rewrite Ha.
    split; [done|]. split; [|lia].
    exists lo, (Z.to_nat mid), (iterations + 1).
    replace (Z.of_nat (Z.to_nat mid)) with mid by lia. rewrite Ha.
    split; [done|]. split; [lia|]. split; [done|].
    intros k b Hk Hb. apply (ge_trans b a x); [|done].
    by apply (sortedb_lookup arr Hsort (Z.to_nat mid) k).
  - exists (S (Z.to_nat mid)), hi1, (iterations + 1).
    replace (Z.of_nat (S (Z.to_nat mid))) with (mid + 1) by lia.
    split; [done|]. split; [|lia].
    exists (S (Z.to_nat mid)), hi1, (iterations + 1).
    replace (Z.of_nat (S (Z.to_nat mid))) with (mid + 1) by lia.
    split; [done|]. split; [lia|]. split; [|done].
    intros k b Hk Hb. destruct (ge b x) eqn:Hbx; [|done].
    rewrite <- Hge. symmetry. apply (ge_trans a b x); [|done].
    apply (sortedb_lookup arr Hsort k (Z.to_nat mid)); [lia | done | done].
Qed.

(** The loop ends with the first element that is at least [x]. *)
Lemma binary_search_upper_bound_spec (fuel : nat) arr x :
  sortedb ge arr = true -> (length arr <= fuel)%nat ->
  exists (iterations : Z) (p : nat),
    binary_search_upper_bound ge fuel arr x = Returned (iterations, arr !! p) /\
    (p <= length arr)%nat /\
    (forall k a, (k < p)%nat -> arr !! k = Some a -> ge a x = false) /\
    (forall k a, (p <= k)%nat -> arr !! k = Some a -> ge a x = true).
Proof.
  intros Hsort Hfuel. unfold binary_search_upper_bound.
  set (Post := fun f : flow (Z * Z * Z * option A) Empty_set =>
    exists (lo hi : Z) (iterations : Z) (p : nat),
      f = Next (lo, hi, iterations, arr !! p) /\ (p <= length arr)%nat /\
      (forall k a, (k < p)%nat -> arr !! k = Some a -> ge a x = false) /\
      (forall k a, (p <= k)%nat -> arr !! k = Some a -> ge a x = true)).
  enough (exists f, while (fun '(left_, right_, _, _) => Returned (left_ <=? right_))
    (bs_body ge arr x) fuel (0, len arr - 1, 0, None) = Returned f /\ Post f)
    as (f & -> & lo & hi & it & p & -> & Hp) by (simpl; eauto).
  apply (while_total _ _ (bs_inv ge arr x)
    (fun '(lo, hi, _, _) => Z.to_nat (hi - lo + 1)) Post).
  - intros st Hinv. pose proof Hinv as (lo & hi1 & it & -> & Hr & Hlow & Hhigh).
    eexists. split; [done|].
    destruct (Z.leb_spec (Z.of_nat lo) (Z.of_nat hi1 - 1)) as [Hle|Hgt].
    + split; [lia|].
      destruct (bs_body_spec arr x lo hi1 it Hsort Hinv ltac:(lia))
        as (lo' & hi1' & it' & -> & Hinv' & Hmu).
      eexists. split; [done|]. split; [done|]. lia.
    + assert (lo = hi1) as -> by lia. exists (Z.of_nat hi1), (Z.of_nat hi1 - 1), it, hi1.
      repeat split; try done; lia.
  - exists 0%nat, (length arr), 0. split.
    + unfold len. rewrite (lookup_ge_None_2 arr (length arr)) by lia. done.
    + split; [lia|]. split; [intros k a Hk; lia|].
      intros k a Hk Hl. apply lookup_lt_Some in Hl. lia.
  - unfold len. lia.
Qed.

End BinarySearchFacts.

(** ** More fuel does not change an answer *)

Section Fuel.

Context {char : Type} `{Countable char}.
Implicit Types (text pattern : list char).

Lemma bind_returned {A B : Type} (c : outcome A) (k : A -> outcome B) b :
  (x <- c;; k x) = Returned b -> exists a, c = Returned a /\ k a = Returned b.
Proof. destruct c as [a| |]; simpl; [eauto | done | done]. Qed.

Lemma bmh_body_mono (inner inner' : nat) shift text pattern i f :
  (inner <= inner')%nat ->
  bmh_body inner shift text pattern i = Returned f ->
  bmh_body inner' shift text pattern i = Returned f.
Proof.
  intros Hle. unfold bmh_body. intros Hb.
  apply bind_returned in Hb as (r & Hc & Hk).
  unfold bmh_compare in *.
  rewrite (while_mono _ _ _ inner inner' _ r (fun _ _ E => E) Hle Hc). done.
Qed.

Lemma boyer_moore_horspool_mono (fuel fuel' : nat) text pattern v :
  (fuel <= fuel')%nat ->
  boyer_moore_horspool fuel text pattern = Returned v ->
  boyer_moore_horspool fuel' text pattern = Returned v.
Proof.
  intros Hle. unfold boyer_moore_horspool.
  destruct (len pattern =? 0); [done|]. destruct (len pattern >? len text); [done|].
  intros Hb. apply bind_returned in Hb as (r & Hs & Hk). unfold bmh_scan in *.
  apply (while_mono _ _ (bmh_body fuel' (build_shift pattern) text pattern)
           fuel fuel') in Hs; [|intros s f; by apply bmh_body_mono|done].
  rewrite Hs. done.
Qed.

Lemma kmp_search_mono (fuel fuel' : nat) text pattern v :
  (fuel <= fuel')%nat ->
  kmp_search fuel text pattern = Returned v ->
  kmp_search fuel' text pattern = Returned v.
Proof.
  intros Hle. unfold kmp_search.
  destruct (len pattern =? 0); [done|]. destruct (len pattern >? len text); [done|].
  intros Hb. apply bind_returned in Hb as (lps & Hl & Hb).
  apply bind_returned in Hb as (r & Hs & Hk).
  unfold build_lps in *. apply bind_returned in Hl as (g & Hw & Hg).
  rewrite (while_mono _ _ _ fuel fuel' _ g (fun _ _ E => E) Hle Hw). simpl.
  rewrite Hg. simpl. unfold kmp_scan in *.
  rewrite (while_mono _ _ _ fuel fuel' _ r (fun _ _ E => E) Hle Hs). done.
Qed.

End Fuel.

(** ** The specification of the matchers *)

Section MatcherSpec.

Context {char : Type} `{Countable char}.
Variable ord : char -> Z.
Implicit Types (text pattern : list char) (c : char).

Lemma leftmost_occurs text pattern r :
  leftmost text pattern r -> r <> -1 -> occurs_at text pattern r.
Proof. by intros [[-> _]|[Ho _]]. Qed.

Lemma boyer_moore_horspool_sound (fuel : nat) text pattern i :
  boyer_moore_horspool fuel text pattern = Returned (VInt i) -> i <> -1 ->
  occurs_at text pattern i.
Proof.
  intros Hr Hi.
  apply (boyer_moore_horspool_mono fuel (Nat.max fuel (length text))) in Hr; [|lia].
  rewrite boyer_moore_horspool_naive in Hr by lia. simplify_eq.
  apply leftmost_occurs; [apply naive_search_leftmost | done].
Qed.

Lemma kmp_search_sound (fuel : nat) text pattern i :
  kmp_search fuel text pattern = Returned (VInt i) -> i <> -1 ->
  occurs_at text pattern i.
Proof.
  intros Hr Hi.
  apply (kmp_search_mono fuel (Nat.max fuel (2 * length text))) in Hr; [|lia].
  rewrite kmp_search_naive in Hr by lia. simplify_eq.
  apply leftmost_occurs; [apply naive_search_leftmost | done].
Qed.

(** Whatever the base and the modulus, also a modulus under which every
    window has the hash of the pattern. *)
Lemma rabin_karp_search_sound text pattern base md i :
  rabin_karp_search ord text pattern base md = Returned (VInt i) -> i <> -1 ->
  occurs_at text pattern i.
Proof.
  intros Hr Hi. destruct (decide (md = 0)) as [->|Hmd].
  - unfold rabin_karp_search in Hr.
    destruct (Z.eqb_spec (len pattern) 0) as [Hm0|Hm0].
    + simplify_eq. unfold len in Hm0.
      assert (pattern = []) as -> by (apply length_zero_iff_nil; lia).
      split; [unfold len; simpl; lia | exact (slice_nat text 0 0)].
    + destruct (len pattern >? len text); [by simplify_eq | done].
  - rewrite rabin_karp_search_naive in Hr by done. simplify_eq.
    apply leftmost_occurs; [apply naive_search_leftmost | done].
Qed.

(** C1: an index returned by any of the three matchers lies in
    [0, n - m] and the text holds the pattern there; for Rabin-Karp this
    holds for every base and modulus, so equal hashes alone never produce
    an answer. *)
Theorem matchers_sound (fuel : nat) text pattern (base md : Z) (i : Z) :
  boyer_moore_horspool fuel text pattern = Returned (VInt i) \/
  kmp_search fuel text pattern = Returned (VInt i) \/
  rabin_karp_search ord text pattern base md = Returned (VInt i) ->
  i <> -1 ->
  0 <= i <= len text - len pattern /\ slice text i (i + len pattern) = pattern.
Proof.
  intros [Hr|[Hr|Hr]] Hi.
  - by apply (boyer_moore_horspool_sound fuel).
  - by apply (kmp_search_sound fuel).
  - by apply (rabin_karp_search_sound text pattern base md).
Qed.

(** C2: with enough fuel for their loops, the three matchers return what
    the naive left-to-right reference search returns. *)
Theorem matchers_agree_with_naive (fuel : nat) text pattern (base md : Z) :
  (2 * length text <= fuel)%nat -> md <> 0 ->
  boyer_moore_horspool fuel text pattern = Returned (VInt (naive_search text pattern)) /\
  kmp_search fuel text pattern = Returned (VInt (naive_search text pattern)) /\
  rabin_karp_search ord text pattern base md
  = Returned (VInt (naive_search text pattern)).
Proof.
  intros Hfuel Hmd. split; [|split].
  - apply boyer_moore_horspool_naive. lia.
  - by apply kmp_search_naive.
  - by apply rabin_karp_search_naive.
Qed.

(** C3: for a pattern of length [m >= 1] the loop of [kmp_search] builds a
    table of length [m] whose entry [i] is the length of the longest proper
    prefix of [pattern[0..i]] that is also a suffix of it. *)
Theorem lps_table_correct (fuel : nat) pattern :
  (0 < length pattern)%nat -> (2 * length pattern <= fuel)%nat ->
  exists lps, build_lps fuel pattern = Returned lps /\
    length lps = length pattern /\
    forall i, (i < length pattern)%nat ->
      exists b, lps !! i = Some (Z.of_nat b) /\
                longest_border (take (S i) pattern) b.
Proof.
  intros Hm Hfuel.
  destruct (build_lps_spec fuel pattern Hm Hfuel) as (lps & Hb & Hlen & Hok).
  exists lps. split; [done|]. split; [done|]. intros i Hi.
  destruct (Hok i Hi) as (b & Hl & Hbord & Hmax). exists b. split; [done|]. split.
  - by apply bord_is_border; [lia|].
  - intros b' Hb'. apply Hmax. by apply bord_is_border; [lia|].
Qed.


(** C5: under a positive modulus, every rolling update of
    [rabin_karp_search] leaves a value in [0, mod), after the subtraction
    and after the addition, and the new value is the polynomial hash of
    the window that starts at [i + 1].  The loop head [i] is reached with
    the hash of the window at [i] whenever no earlier window is the
    pattern; the pass at [i] then returns [i] when the window is the
    pattern, and otherwise goes on with the rolled hash as [t_hash]. *)
Theorem rolling_hash_correct text pattern (base md : Z) :
  0 < md -> (0 < length pattern)%nat -> (length pattern <= length text)%nat ->
  let n := len text in
  let m := len pattern in
  exists h p_hash t0,
    pow_mod base (m - 1) md = Returned h /\
    rk_init ord text pattern base md = Returned (Next (p_hash, t0)) /\
    t0 = poly_hash ord base md (slice text 0 m) /\ 0 <= t0 < md /\
    (forall i, 0 <= i <= n - m ->
       (forall i', 0 <= i' < i -> slice text i' (i' + m) <> pattern) ->
       exists t,
         for_in (rk_body ord text pattern base md h p_hash) (range i) t0
         = Returned (Next t) /\
         0 <= t < md /\ t = poly_hash ord base md (slice text i (i + m))) /\
    forall i t, 0 <= i < n - m ->
      for_in (rk_body ord text pattern base md h p_hash) (range i) t0
      = Returned (Next t) ->
      exists t1 t2,
        rk_drop ord text md h i t = Returned t1 /\ 0 <= t1 < md /\
        rk_push ord text base md m i t1 = Returned t2 /\ 0 <= t2 < md /\
        t2 = poly_hash ord base md (slice text (i + 1) (i + 1 + m)) /\
        (slice text i (i + m) = pattern ->
           rk_body ord text pattern base md h p_hash i t
           = Returned (Return (VInt i))) /\
        (slice text i (i + m) <> pattern ->
           rk_body ord text pattern base md h p_hash i t = Returned (Next t2) /\
           for_in (rk_body ord text pattern base md h p_hash) (range (i + 1)) t0
           = Returned (Next t2)).
Proof.
  intros Hmd Hm Hmn n m. subst n m.
  exists (base ^ (len pattern - 1) mod md), (poly_hash ord base md pattern),
    (poly_hash ord base md (take (length pattern) text)).
  split; [|split; [|split; [|split; [|split]]]].
  - unfold pow_mod. destruct (Z.eqb_spec md 0); [lia | done].
  - apply rk_init_spec; [lia | done].
  - f_equal. symmetry. exact (slice_nat text 0 (length pattern)).
  - apply Z.mod_pos_bound. done.
  - intros i Hi Hbefore. unfold len in Hi.
    exists (poly_hash ord base md (take (length pattern) (drop (Z.to_nat i) text))).
    split; [|split].
    + rewrite <- (Z2Nat.id i) at 1 by lia. apply rk_loop_reach; [lia | done | lia |].
      intros s Hs Ho. apply (Hbefore (Z.of_nat s)); [lia|].
      apply occ_take in Ho. unfold len. by rewrite slice_nat.
    + by apply Z.mod_pos_bound.
    + unfold len. by rewrite slice_Z by lia.
  - intros i t Hi Hrun. unfold len in Hi.
    destruct (rk_loop_prefix ord text pattern base md (Z.to_nat i))
      as (f & Hf & Hpost); [lia | done | lia |].
    rewrite Z2Nat.id in Hf by lia. rewrite Hrun in Hf. simplify_eq.
    destruct Hpost as [_ Ht]. rewrite Ht in * by lia.
    destruct (rk_roll_spec ord text base md (Z.to_nat i) (length pattern))
      as (w & c' & Hw & Hd & Hp); [lia | done | lia |].
    rewrite Z2Nat.id in Hd, Hp by lia.
    assert (slice text i (i + len pattern) = pattern <-> occ text pattern (Z.to_nat i))
      as Hslice.
    { rewrite occ_take. unfold len. by rewrite slice_Z by lia. }
    pose proof (rk_body_spec ord text pattern base md (Z.to_nat i)
                  ltac:(lia) Hm ltac:(lia)) as Hbody.
    simpl in Hbody. rewrite Z2Nat.id in Hbody by lia.
    destruct (Nat.ltb_spec (Z.to_nat i + length pattern) (length text)) as [_|?]; [|lia].
    unfold len.
    exists (poly_hash ord base md w),
      (poly_hash ord base md (take (length pattern) (drop (S (Z.to_nat i)) text))).
    split; [done|]. split; [by apply Z.mod_pos_bound|]. split; [done|].
    split; [by apply Z.mod_pos_bound|]. split; [|split].
    + replace (i + 1) with (Z.of_nat (S (Z.to_nat i))) by lia. by rewrite slice_nat.
    + intros Heq. apply Hslice in Heq. by destruct Hbody as [[_ ?]|[? _]].
    + intros Hne. rewrite Hslice in Hne. destruct Hbody as [[? _]|[_ Hb]]; [done|].
      split; [done|].
      replace (i + 1) with (Z.of_nat (S (Z.to_nat i))) by lia.
      unfold len in *.
      rewrite range_S, for_in_app. rewrite Z2Nat.id by lia. rewrite Hrun.
      cbn [bind for_in]. by rewrite Hb.
Qed.

(** C6, as the code has it: when the pattern does not occur, each matcher
    returns the integer [-1]. *)
Theorem matchers_not_found (fuel : nat) text pattern (base md : Z) :
  (2 * length text <= fuel)%nat -> md <> 0 ->
  (forall i, ~ occurs_at text pattern i) ->
  boyer_moore_horspool fuel text pattern = Returned (VInt (-1)) /\
  kmp_search fuel text pattern = Returned (VInt (-1)) /\
  rabin_karp_search ord text pattern base md = Returned (VInt (-1)).
Proof.
  intros Hfuel Hmd Hno.
  assert (naive_search text pattern = -1) as Hn.
  { apply (leftmost_unique text pattern); [apply naive_search_leftmost|]. by left. }
  rewrite <- Hn. split; [|split].
  - apply boyer_moore_horspool_naive. lia.
  - by apply kmp_search_naive.
  - by apply rabin_karp_search_naive.
Qed.

(** C7: for every text the empty pattern is found at index 0. *)
Theorem empty_pattern_found (fuel : nat) text (base md : Z) :
  boyer_moore_horspool fuel text [] = Returned (VInt 0) /\
  kmp_search fuel text [] = Returned (VInt 0) /\
  rabin_karp_search ord text [] base md = Returned (VInt 0).
Proof. done. Qed.

(** C10: the shifts stored by Boyer-Moore-Horspool are at least 1 and so
    is the default shift of a pattern of length [m >= 1], every pass through
    the scanning loop that does not return moves [i] forward, the loop is
    over within [n - m + 1] passes, and the function returns on every
    input. *)
Theorem horspool_terminates (inner : nat) text pattern :
  (length pattern <= inner)%nat ->
  let n := len text in
  let m := len pattern in
  let shift := build_shift pattern in
  (forall c v, shift !! c = Some v -> 1 <= v) /\
  ((0 < length pattern)%nat -> forall c, 1 <= dict_get shift c m) /\
  (forall i, 0 <= i <= n - m ->
     exists f, bmh_body inner shift text pattern i = Returned f /\
       match f with
       | Next i' => i < i'
       | Return _ => True
       end) /\
  (exists f, bmh_scan inner (Z.to_nat (n - m + 1)) shift text pattern 0 = Returned f) /\
  (forall fuel, (length text <= fuel)%nat ->
     exists v, boyer_moore_horspool fuel text pattern = Returned v).
Proof.
  intros Hin n m shift. subst n m shift.
  assert (forall i, 0 <= i <= len text - len pattern ->
    exists f, bmh_body inner (build_shift pattern) text pattern i = Returned f /\
      match f with
      | Next i' => i < i'
      | Return _ => True
      end) as Hstep.
  { intros i Hi. unfold len in Hi.
    destruct (decide (length pattern = 0)%nat) as [Hm0|Hm0].
    - exists (Return (VInt i)). split; [|done].
      unfold bmh_body, bmh_compare, len. rewrite Hm0. by destruct inner.
    - destruct (bmh_body_spec inner text pattern (Z.to_nat i)) as (f & Hf & Hpost);
        [lia | lia | done |].
      rewrite Z2Nat.id in Hf by lia. exists f. split; [done|].
      destruct f as [i'|v]; [|done]. destruct Hpost as (d & -> & Hd & _). lia. }
  split; [|split; [|split; [|split]]].
  - intros c v Hv. apply build_shift_pos in Hv. lia.
  - intros Hm c. by apply dict_get_shift_bounds.
  - exact Hstep.
  - destruct (decide (length pattern = 0)%nat) as [Hm0|Hm0].
    + exists (Return (VInt 0)).
      assert (bmh_body inner (build_shift pattern) text pattern 0
              = Returned (Return (VInt 0))) as Hb.
      { unfold bmh_body, bmh_compare, len. rewrite Hm0. by destruct inner. }
      unfold bmh_scan.
      replace (Z.to_nat (len text - len pattern + 1)) with (S (length text))
        by (unfold len; lia).
      rewrite while_unfold. cbn [bind].
      destruct (Z.leb_spec 0 (len text - len pattern)) as [_|?]; [|unfold len in *; lia].
      rewrite Hb. done.
    + destruct (decide (length pattern <= length text)%nat) as [Hmn|Hmn].
      * destruct (bmh_scan_spec inner (Z.to_nat (len text - len pattern + 1)) text pattern 0)
          as (f & r & Hf & _); try done; try lia.
        { unfold len. lia. }
        by exists f.
      * exists (Next 0). unfold bmh_scan, len.
        replace (Z.to_nat _) with 0%nat by lia. simpl.
        destruct (Z.leb_spec 0 (Z.of_nat (length text) - Z.of_nat (length pattern)));
          [lia | done].
  - intros fuel Hfuel. rewrite boyer_moore_horspool_naive by done. by eexists.
Qed.

End MatcherSpec.

(** ** The specification of the binary search *)

Section BinarySearchSpec.

Context {A : Type}.
Variable ge : A -> A -> bool.
Hypothesis ge_refl : forall a, ge a a = true.
Hypothesis ge_trans : forall a b c, ge a b = true -> ge b c = true -> ge a c = true.

(** C9: on a list in ascending order the search returns the smallest
    element that is at least [x], or [None] when every element is below
    [x]; on the empty list it returns [(0, None)]. *)
Theorem binary_search_upper_bound_correct (fuel : nat) (arr : list A) (x : A) :
  sortedb ge arr = true -> (length arr <= fuel)%nat ->
  exists (iterations : Z) (upper_bound : option A),
    binary_search_upper_bound ge fuel arr x = Returned (iterations, upper_bound) /\
    match upper_bound with
    | Some v => v ∈ arr /\ ge v x = true /\
                forall u, u ∈ arr -> ge u x = true -> ge u v = true
    | None => forall u, u ∈ arr -> ge u x = false
    end /\
    (arr = [] -> iterations = 0 /\ upper_bound = None).
Proof.
  intros Hsort Hfuel.
  destruct (binary_search_upper_bound_spec ge ge_refl ge_trans fuel arr x Hsort Hfuel)
    as (it & p & Hrun & Hp & Hlow & Hhigh).
  exists it, (arr !! p). split; [done|]. split.
  - destruct (arr !! p) as [v|] eqn:Hv.
    + split; [by eapply list_elem_of_lookup_2|]. split; [by apply (Hhigh p)|].
      intros u Hu Hux. apply list_elem_of_lookup_1 in Hu as [k Hk].
      destruct (decide (k < p)%nat) as [Hlt|Hge].
      * rewrite (Hlow k u Hlt Hk) in Hux. done.
      * apply (sortedb_lookup ge ge_refl arr Hsort p k); [lia | done | done].
    + intros u Hu. apply list_elem_of_lookup_1 in Hu as [k Hk].
      apply (Hlow k u); [|done]. apply lookup_ge_None in Hv.
      apply lookup_lt_Some in Hk. lia.
  - intros ->. unfold binary_search_upper_bound in Hrun.
    destruct fuel; simpl in Hrun; by simplify_eq.
Qed.

End BinarySearchSpec.

(** ** Concrete runs *)

(** C8: the scenario of the specification. *)
Theorem scenario_index_15 (fuel : nat) :
  (46 <= fuel)%nat ->
  let text := str "abcxabcdabxabcdabcdabcy" in
  let pattern := str "abcdabcy" in
  boyer_moore_horspool fuel text pattern = Returned (VInt 15) /\
  kmp_search fuel text pattern = Returned (VInt 15) /\
  rabin_karp_search ascii_ord text pattern default_base default_mod = Returned (VInt 15).
Proof.
  intros Hfuel text pattern.
  assert (naive_search text pattern = 15) as <- by (vm_compute; reflexivity).
  split; [|split].
  - apply boyer_moore_horspool_naive. subst text. simpl. lia.
  - apply kmp_search_naive. subst text. simpl. lia.
  - by apply rabin_karp_search_naive.
Qed.

Example scenario_index_15_direct :
  boyer_moore_horspool 16 (str "abcxabcdabxabcdabcdabcy") (str "abcdabcy") = Returned (VInt 15) /\
  kmp_search 31 (str "abcxabcdabxabcdabcdabcy") (str "abcdabcy") = Returned (VInt 15) /\
  rabin_karp_search ascii_ord (str "abcxabcdabxabcdabcdabcy") (str "abcdabcy")
    default_base default_mod = Returned (VInt 15).
Proof. vm_compute. done. Qed.

Example scenario_leftmost :
  boyer_moore_horspool 7 (str "aaaaaaaaaa") (str "aaaa") = Returned (VInt 0) /\
  kmp_search 4 (str "aaaaaaaaaa") (str "aaaa") = Returned (VInt 0) /\
  rabin_karp_search ascii_ord (str "aaaaaaaaaa") (str "aaaa") default_base default_mod
  = Returned (VInt 0).
Proof. vm_compute. done. Qed.

Example scenario_empty_text :
  boyer_moore_horspool 0 (str "") (str "x") = Returned (VInt (-1)) /\
  kmp_search 0 (str "") (str "x") = Returned (VInt (-1)) /\
  rabin_karp_search ascii_ord (str "") (str "x") default_base default_mod
  = Returned (VInt (-1)).
Proof. vm_compute. done. Qed.

(** Every window has hash 0 under the modulus 1, and only the real
    occurrence is reported. *)
Example scenario_collisions :
  rabin_karp_search ascii_ord (str "abcabd") (str "abd") 256 1 = Returned (VInt 3).
Proof. vm_compute. done. Qed.

(** A zero modulus is refused by [pow]. *)
Example scenario_zero_modulus :
  rabin_karp_search ascii_ord (str "ab") (str "b") 256 0 = Raised ValueError.
Proof. vm_compute. done. Qed.

(** Too little fuel gives no answer. *)
Example scenario_out_of_fuel :
  kmp_search 3 (str "abcabd") (str "abd") = OutOfFuel.
Proof. vm_compute. done. Qed.

Example scenario_binary_search :
  binary_search_upper_bound Z.geb 3 [1; 3; 3; 5; 9] 4 = Returned (2, Some 5) /\
  binary_search_upper_bound Z.geb 3 [1; 3; 3; 5; 9] 10 = Returned (3, None) /\
  binary_search_upper_bound Z.geb 0 [] 5 = Returned (0, None).
Proof. vm_compute. done. Qed.

(** The rolling hash on ["xxab"] and ["ab"]: the windows ["xx"], ["xa"] and
    ["ab"] have the hashes 30840, 30817 and 24930, the last one being the
    hash of the pattern. *)
Example scenario_rolling :
  rk_init ascii_ord (str "xxab") (str "ab") default_base default_mod
  = Returned (Next (24930, 30840)) /\
  for_in (rk_body ascii_ord (str "xxab") (str "ab") default_base default_mod 256 24930)
    (range 1) 30840 = Returned (Next 30817) /\
  rk_drop ascii_ord (str "xxab") default_mod 256 1 30817 = Returned 97 /\
  rk_push ascii_ord (str "xxab") default_base default_mod 2 1 97 = Returned 24930 /\
  rk_body ascii_ord (str "xxab") (str "ab") default_base default_mod 256 24930 1 30817
  = Returned (Next 24930) /\
  rk_body ascii_ord (str "xxab") (str "ab") default_base default_mod 256 24930 2 24930
  = Returned (Return (VInt 2)).
Proof. vm_compute. done. Qed.

(** C6 as the specification states it fails: on the empty text the pattern
    ["x"] does not occur, and the matchers return [-1], not [None]. *)
Lemma not_found_is_not_None :
  ~ ((forall i, ~ occurs_at (str "") (str "x") i) ->
     boyer_moore_horspool 0 (str "") (str "x") = Returned VNone /\
     kmp_search 0 (str "") (str "x") = Returned VNone /\
     rabin_karp_search ascii_ord (str "") (str "x") default_base default_mod
     = Returned VNone).
Proof.
  intros Hclaim. destruct Hclaim as [Hb _].
  - intros i [Hr _]. unfold len in Hr. simpl in Hr. lia.
  - vm_compute in Hb. discriminate Hb.
Qed.

(** ** The theorems at concrete inputs *)

Lemma matchers_sound_witness :
  rabin_karp_search ascii_ord (str "abcabd") (str "abd") 256 1 = Returned (VInt 3) /\
  3 <> -1 /\
  0 <= 3 <= len (str "abcabd") - len (str "abd") /\
  slice (str "abcabd") 3 (3 + len (str "abd")) = str "abd".
Proof.
  split; [vm_compute; reflexivity|]. split; [lia|].
  apply (matchers_sound ascii_ord 0 (str "abcabd") (str "abd") 256 1 3).
  - right. right. vm_compute. reflexivity.
  - lia.
Defined.

Lemma matchers_agree_with_naive_witness :
  (2 * length (str "aaaaaaaaaa") <= 20)%nat /\ default_mod <> 0 /\
  boyer_moore_horspool 20 (str "aaaaaaaaaa") (str "aaaa")
  = Returned (VInt (naive_search (str "aaaaaaaaaa") (str "aaaa"))) /\
  kmp_search 20 (str "aaaaaaaaaa") (str "aaaa")
  = Returned (VInt (naive_search (str "aaaaaaaaaa") (str "aaaa"))) /\
  rabin_karp_search ascii_ord (str "aaaaaaaaaa") (str "aaaa") default_base default_mod
  = Returned (VInt (naive_search (str "aaaaaaaaaa") (str "aaaa"))).
Proof.
  split; [simpl; lia|]. split; [unfold default_mod; lia|].
  apply (matchers_agree_with_naive ascii_ord 20 (str "aaaaaaaaaa") (str "aaaa")
           default_base default_mod).
  - simpl. lia.
  - unfold default_mod. lia.
Defined.

Lemma lps_table_correct_witness :
  (0 < length (str "abcdabcy"))%nat /\ (2 * length (str "abcdabcy") <= 16)%nat /\
  exists lps, build_lps 16 (str "abcdabcy") = Returned lps /\
    length lps = length (str "abcdabcy") /\
    forall i, (i < length (str "abcdabcy"))%nat ->
      exists b, lps !! i = Some (Z.of_nat b) /\
                longest_border (take (S i) (str "abcdabcy")) b.
Proof.
  split; [simpl; lia|]. split; [simpl; lia|].
  apply (lps_table_correct 16 (str "abcdabcy")); simpl; lia.
Defined.


Lemma rolling_hash_correct_witness :
  0 < default_mod /\ (0 < length (str "ab"))%nat /\
  (length (str "ab") <= length (str "xxab"))%nat /\
  exists h p_hash t0 t t1 t2,
    pow_mod default_base (len (str "ab") - 1) default_mod = Returned h /\
    rk_init ascii_ord (str "xxab") (str "ab") default_base default_mod
    = Returned (Next (p_hash, t0)) /\
    0 <= 1 < len (str "xxab") - len (str "ab") /\
    slice (str "xxab") 1 (1 + len (str "ab")) <> str "ab" /\
    for_in (rk_body ascii_ord (str "xxab") (str "ab") default_base default_mod h p_hash)
      (range 1) t0 = Returned (Next t) /\
    0 <= t < default_mod /\
    t = poly_hash ascii_ord default_base default_mod
          (slice (str "xxab") 1 (1 + len (str "ab"))) /\
    rk_drop ascii_ord (str "xxab") default_mod h 1 t = Returned t1 /\
    0 <= t1 < default_mod /\
    rk_push ascii_ord (str "xxab") default_base default_mod (len (str "ab")) 1 t1
    = Returned t2 /\
    0 <= t2 < default_mod /\
    t2 = poly_hash ascii_ord default_base default_mod
           (slice (str "xxab") (1 + 1) (1 + 1 + len (str "ab"))) /\
    rk_body ascii_ord (str "xxab") (str "ab") default_base default_mod h p_hash 1 t
    = Returned (Next t2) /\
    for_in (rk_body ascii_ord (str "xxab") (str "ab") default_base default_mod h p_hash)
      (range (1 + 1)) t0 = Returned (Next t2).
Proof.
  split; [unfold default_mod; lia|]. split; [simpl; lia|]. split; [simpl; lia|].
  destruct (rolling_hash_correct ascii_ord (str "xxab") (str "ab") default_base default_mod)
    as (h & p_hash & t0 & Hh & Hinit & Ht0 & Hr0 & Hreach & Hroll);
    [unfold default_mod; lia | simpl; lia | simpl; lia |].
  assert (0 <= 1 < len (str "xxab") - len (str "ab")) as Hi by (unfold len; simpl; lia).
  assert (slice (str "xxab") 1 (1 + len (str "ab")) <> str "ab") as Hne.
  { intros Hs. vm_compute in Hs. discriminate Hs. }
  destruct (Hreach 1) as (t & Hrun & Hrt & Ht); [lia | |].
  { intros i' Hi'. assert (i' = 0) as -> by lia.
    intros Hs. vm_compute in Hs. discriminate Hs. }
  destruct (Hroll 1 t Hi Hrun) as (t1 & t2 & Hd & Hr1 & Hp & Hr2 & Ht2 & _ & Hstep).
  destruct (Hstep Hne) as [Hbody Hnext].
  exists h, p_hash, t0, t, t1, t2.
  repeat (split; [assumption || lia|]). assumption.
Defined.

Lemma matchers_not_found_witness :
  (2 * length (str "abcabd") <= 12)%nat /\ default_mod <> 0 /\
  (forall i, ~ occurs_at (str "abcabd") (str "abx") i) /\
  boyer_moore_horspool 12 (str "abcabd") (str "abx") = Returned (VInt (-1)) /\
  kmp_search 12 (str "abcabd") (str "abx") = Returned (VInt (-1)) /\
  rabin_karp_search ascii_ord (str "abcabd") (str "abx") default_base default_mod
  = Returned (VInt (-1)).
Proof.
  assert (forall i, ~ occurs_at (str "abcabd") (str "abx") i) as Hno.
  { intros i [Hr Hs]. unfold len in Hr. simpl in Hr.
    assert (i = 0 \/ i = 1 \/ i = 2 \/ i = 3) as [-> | [-> | [-> | ->]]] by lia;
      vm_compute in Hs; discriminate Hs. }
  split; [simpl; lia|]. split; [unfold default_mod; lia|]. split; [exact Hno|].
  apply (matchers_not_found ascii_ord 12 (str "abcabd") (str "abx")
           default_base default_mod).
  - simpl. lia.
  - unfold default_mod. lia.
  - exact Hno.
Defined.

Lemma scenario_index_15_witness :
  (46 <= 46)%nat /\
  boyer_moore_horspool 46 (str "abcxabcdabxabcdabcdabcy") (str "abcdabcy")
  = Returned (VInt 15) /\
  kmp_search 46 (str "abcxabcdabxabcdabcdabcy") (str "abcdabcy") = Returned (VInt 15) /\
  rabin_karp_search ascii_ord (str "abcxabcdabxabcdabcdabcy") (str "abcdabcy")
    default_base default_mod = Returned (VInt 15).
Proof.
  split; [lia|]. apply (scenario_index_15 46). lia.
Defined.

Lemma binary_search_upper_bound_correct_witness :
  sortedb Z.geb [1; 3; 3; 5; 9] = true /\ (length [1; 3; 3; 5; 9] <= 5)%nat /\
  exists (iterations : Z) (upper_bound : option Z),
    binary_search_upper_bound Z.geb 5 [1; 3; 3; 5; 9] 4
    = Returned (iterations, upper_bound) /\
    match upper_bound with
    | Some v => v ∈ [1; 3; 3; 5; 9] /\ (v >=? 4) = true /\
                forall u, u ∈ [1; 3; 3; 5; 9] -> (u >=? 4) = true -> (u >=? v) = true
    | None => forall u, u ∈ [1; 3; 3; 5; 9] -> (u >=? 4) = false
    end /\
    ([1; 3; 3; 5; 9] = [] -> iterations = 0 /\ upper_bound = None).
Proof.
  split; [reflexivity|]. split; [simpl; lia|].
  apply (binary_search_upper_bound_correct Z.geb).
  - intros a. apply Z.geb_le. lia.
  - intros a b c Hab Hbc. apply Z.geb_le in Hab, Hbc. apply Z.geb_le. lia.
  - reflexivity.
  - simpl. lia.
Defined.

Lemma horspool_terminates_witness :
  (length (str "abcdabcy") <= 8)%nat /\
  let text := str "abcxabcdabxabcdabcdabcy" in
  let pattern := str "abcdabcy" in
  let n := len text in
  let m := len pattern in
  let shift := build_shift pattern in
  (forall c v, shift !! c = Some v -> 1 <= v) /\
  ((0 < length pattern)%nat -> forall c, 1 <= dict_get shift c m) /\
  (forall i, 0 <= i <= n - m ->
     exists f, bmh_body 8 shift text pattern i = Returned f /\
       match f with
       | Next i' => i < i'
       | Return _ => True
       end) /\
  (exists f, bmh_scan 8 (Z.to_nat (n - m + 1)) shift text pattern 0 = Returned f) /\
  (forall fuel, (length text <= fuel)%nat ->
     exists v, boyer_moore_horspool fuel text pattern = Returned v).
Proof.
  split; [simpl; lia|].
  apply (horspool_terminates 8 (str "abcxabcdabxabcdabcdabcy") (str "abcdabcy")).
  simpl. lia.
Defined.

(** ** Further properties of the matchers *)

Section MatcherMore.

Context {char : Type} `{Countable char}.
Variable ord : char -> Z.
Implicit Types (text pattern : list char) (c : char).

(** The three matchers never miss and never skip: they return the same
    [r], which is [-1] only when the pattern occurs nowhere, and otherwise
    an occurrence with none to its left. *)
Theorem matchers_leftmost (fuel : nat) text pattern (base md : Z) :
  (2 * length text <= fuel)%nat -> md <> 0 ->
  exists r,
    boyer_moore_horspool fuel text pattern = Returned (VInt r) /\
    kmp_search fuel text pattern = Returned (VInt r) /\
    rabin_karp_search ord text pattern base md = Returned (VInt r) /\
    ((r = -1 /\ forall i, ~ occurs_at text pattern i) \/
     (occurs_at text pattern r /\ forall i, i < r -> ~ occurs_at text pattern i)).
Proof.
  intros Hfuel Hmd. exists (naive_search text pattern).
  split; [apply boyer_moore_horspool_naive; lia|].
  split; [by apply kmp_search_naive|].
  split; [by apply rabin_karp_search_naive|].
  apply naive_search_leftmost.
Qed.

(** A pattern longer than the text is reported as not found before any
    loop runs: no fuel is needed and no modulus is looked at. *)
Theorem pattern_longer_than_text (fuel : nat) text pattern (base md : Z) :
  (length text < length pattern)%nat ->
  boyer_moore_horspool fuel text pattern = Returned (VInt (-1)) /\
  kmp_search fuel text pattern = Returned (VInt (-1)) /\
  rabin_karp_search ord text pattern base md = Returned (VInt (-1)).
Proof.
  intros Hlt. unfold boyer_moore_horspool, kmp_search, rabin_karp_search, len.
  destruct (Z.eqb_spec (Z.of_nat (length pattern)) 0) as [?|_]; [lia|].
  destruct (Z.gtb_spec (Z.of_nat (length pattern)) (Z.of_nat (length text))) as [_|?];
    [done | lia].
Qed.

(** [rabin_karp_search] raises exactly when it is given the modulus 0 and a
    non-empty pattern that fits into the text, and what it raises then is
    the [ValueError] of [pow]. *)
Theorem rabin_karp_raises_iff text pattern (base md : Z) (e : exn) :
  rabin_karp_search ord text pattern base md = Raised e <->
  e = ValueError /\ md = 0 /\ (0 < length pattern <= length text)%nat.
Proof.
  destruct (decide (md = 0)) as [->|Hmd].
  - unfold rabin_karp_search, len.
    destruct (Z.eqb_spec (Z.of_nat (length pattern)) 0) as [Hm0|Hm0].
    { split; [done | lia]. }
    destruct (Z.gtb_spec (Z.of_nat (length pattern)) (Z.of_nat (length text))) as [Hgt|Hle].
    { split; [done | lia]. }
    simpl. split.
    + intros He. simplify_eq. repeat split; lia.
    + by intros (-> & _).
  - rewrite rabin_karp_search_naive by done. split; [done | by intros (_ & ? & _)].
Qed.

(** The base, the modulus and the code points only decide how fast the
    windows are told apart, not what is found. *)
Theorem rabin_karp_parameters_irrelevant (ord' : char -> Z) text pattern
    (base base' md md' : Z) :
  md <> 0 -> md' <> 0 ->
  rabin_karp_search ord text pattern base md
  = rabin_karp_search ord' text pattern base' md'.
Proof. intros Hmd Hmd'. by rewrite !rabin_karp_search_naive. Qed.

(** A Boyer-Moore-Horspool shift is safe: at an alignment [i] where the
    pattern does not occur the loop moves on by [d = shift.get(text[i + m - 1], m)],
    [1 <= d <= m], and the pattern occurs at none of the alignments
    [i, ..., i + d - 1] it leaves behind. *)
Theorem horspool_shift_safe (inner : nat) text pattern (i : Z) :
  (0 < length pattern)%nat -> (length pattern <= inner)%nat ->
  0 <= i <= len text - len pattern -> ~ occurs_at text pattern i ->
  exists c d,
    index text (i + (len pattern - 1)) = Returned c /\
    d = dict_get (build_shift pattern) c (len pattern) /\
    bmh_body inner (build_shift pattern) text pattern i = Returned (Next (i + d)) /\
    1 <= d <= len pattern /\
    forall i', i <= i' < i + d -> ~ occurs_at text pattern i'.
Proof.
  intros Hm Hin Hi Hno. unfold len in Hi.
  assert (~ occ text pattern (Z.to_nat i)) as Hnocc.
  { intros Ho. apply Hno. apply occurs_at_occ. unfold len. split; [lia | done]. }
  destruct (bmh_body_spec inner text pattern (Z.to_nat i) Hm ltac:(lia) Hin)
    as (f & Hf & Hpost).
  rewrite Z2Nat.id in Hf by lia.
  destruct (bmh_compare_spec inner text pattern (Z.to_nat i) Hm ltac:(lia) Hin)
    as (j & Hc & [[_ Ho]|[Hj _]]); [done|].
  rewrite Z2Nat.id in Hc by lia.
  unfold bmh_body in Hf. rewrite Hc in Hf. simpl in Hf.
  destruct (Z.ltb_spec j 0) as [?|_]; [lia|].
  apply bind_returned in Hf as (c & Hidx & Hf). simplify_eq.
  exists c, (dict_get (build_shift pattern) c (len pattern)).
  split; [done|]. split; [done|]. split.
  { unfold bmh_body. rewrite Hc. simpl.
    destruct (Z.ltb_spec j 0) as [?|_]; [lia|]. by rewrite Hidx. }
  split; [by apply dict_get_shift_bounds|].
  destruct Hpost as (d & Hd & _ & Hskip).
  intros i' Hi' Hocc. apply occurs_at_occ in Hocc as [_ Hocc].
  apply (Hskip (Z.to_nat i')); [lia | done].
Qed.

(** The table [lps] starts with 0, its entry [i] is at most [i], and from
    one entry to the next it grows by at most 1. *)
Theorem lps_table_shape (fuel : nat) pattern :
  (0 < length pattern)%nat -> (2 * length pattern <= fuel)%nat ->
  exists lps, build_lps fuel pattern = Returned lps /\
    lps !! 0%nat = Some 0 /\
    (forall (i : nat) v, lps !! i = Some v -> 0 <= v <= Z.of_nat i) /\
    (forall (i : nat) v w, lps !! i = Some v -> lps !! S i = Some w -> w <= v + 1).
Proof.
  intros Hm Hfuel.
  destruct (build_lps_spec fuel pattern Hm Hfuel) as (lps & Hb & Hlen & Hok).
  exists lps. split; [done|].
  assert (forall (i : nat) v, lps !! i = Some v ->
    exists b : nat, v = Z.of_nat b /\ bord pattern (S i) b /\
      forall b', bord pattern (S i) b' -> (b' <= b)%nat) as Hent.
  { intros i v Hv. pose proof (lookup_lt_Some _ _ _ Hv) as Hi. rewrite Hlen in Hi.
    destruct (Hok i Hi) as (b & Hl & Hbord & Hmax). exists b.
    split; [congruence | done]. }
  split; [|split].
  - destruct (Hok 0%nat Hm) as (b & Hl & (Hb0 & _) & _).
    rewrite Hl. do 2 f_equal. lia.
  - intros i v Hv. destruct (Hent i v Hv) as (b & -> & (Hbi & _) & _). lia.
  - intros i v w Hv Hw.
    destruct (Hent i v Hv) as (b & -> & _ & Hmax).
    destruct (Hent (S i) w Hw) as (b' & -> & Hb' & _).
    destruct b' as [|q]; [lia|]. apply bord_shrink in Hb' as [Hq _].
    apply Hmax in Hq. lia.
Qed.

End MatcherMore.

(** ** Further properties of the binary search *)

Section BinarySearchMore.

Context {A : Type}.
Variable ge : A -> A -> bool.
Implicit Types (arr : list A) (x : A).

Lemma bs_passes_half (s s' : Z) :
  0 < s -> 2 * s' <= s -> (bs_passes s' < bs_passes s)%nat.
Proof.
  intros Hs Hhalf. unfold bs_passes.
  destruct (Z.leb_spec s 0) as [?|_]; [lia|].
  destruct (Z.leb_spec s' 0) as [?|Hs']; [lia|].
  enough (Z.log2 s' < Z.log2 s) by (pose proof (Z.log2_nonneg s'); lia).
  apply Z.log2_lt_pow2; [done|].
  pose proof (Z.log2_spec s Hs) as [_ Hup].
  rewrite Z.pow_succ_r in Hup by apply Z.log2_nonneg. lia.
Qed.

Lemma bs_passes_fuel (n : Z) (fuel : nat) :
  0 <= n -> n < 2 ^ Z.of_nat fuel -> (bs_passes n <= fuel)%nat.
Proof.
  intros Hn Hlt. unfold bs_passes. destruct (Z.leb_spec n 0) as [?|Hpos]; [lia|].
  apply Z.log2_lt_pow2 in Hlt; [|done]. pose proof (Z.log2_nonneg n). lia.
Qed.

(** One pass on a list in any order. *)
Lemma bs_body_any arr x (lo hi1 it : nat) ub :
  bs_any_inv ge arr x (Z.of_nat lo, Z.of_nat hi1 - 1, Z.of_nat it, ub) ->
  (lo < hi1)%nat ->
  exists (lo' hi1' : nat) ub',
    bs_body ge arr x (Z.of_nat lo, Z.of_nat hi1 - 1, Z.of_nat it, ub)
    = Returned (Next (Z.of_nat lo', Z.of_nat hi1' - 1, Z.of_nat (S it), ub')) /\
    bs_any_inv ge arr x (Z.of_nat lo', Z.of_nat hi1' - 1, Z.of_nat (S it), ub') /\
    (2 * (hi1' - lo') <= hi1 - lo)%nat.
Proof.
  intros (lo0 & hi0 & it0 & ub0 & Hst & Hr & Hsize & Hzero & Hpow & Hub) Hlt.
  assert (lo0 = lo /\ hi0 = hi1 /\ it0 = it /\ ub0 = ub) as (-> & -> & -> & ->)
    by (inversion Hst; repeat split; lia || done).
  clear Hst. unfold bs_body.
  set (mid := (Z.of_nat lo + (Z.of_nat hi1 - 1)) / 2).
  assert (2 * mid <= Z.of_nat lo + Z.of_nat hi1 - 1 <= 2 * mid + 1) as Hmid.
  { subst mid. pose proof (Z.div_mod (Z.of_nat lo + (Z.of_nat hi1 - 1)) 2 ltac:(lia)).
    pose proof (Z.mod_pos_bound (Z.of_nat lo + (Z.of_nat hi1 - 1)) 2 ltac:(lia)). lia. }
  clearbody mid.
  destruct (lookup_lt_is_Some_2 arr (Z.to_nat mid) ltac:(lia)) as [a Ha].
  rewrite (index_Z arr mid a ltac:(lia) Ha). simpl.
  replace (Z.of_nat it + 1) with (Z.of_nat (S it)) by lia.
  assert (2 ^ S it = 2 * 2 ^ it)%nat as Hp by apply Nat.pow_succ_r'.
  assert (2 ^ (S it - 1) <= length arr)%nat as Hpow'.
  { replace (S it - 1)%nat with it by lia. nia. }
  destruct (ge a x) eqn:Hge.
  - exists lo, (Z.to_nat mid), (Some a).
    replace (Z.of_nat (Z.to_nat mid)) with mid by lia.
    split; [done|]. split; [|lia].
    exists lo, (Z.to_nat mid), (S it), (Some a).
    replace (Z.of_nat (Z.to_nat mid)) with mid by lia.
    split; [done|]. split; [lia|]. split; [rewrite Hp; nia|].
    split; [done|]. split; [done|].
    intros v Hv. simplify_eq. split; [by eapply list_elem_of_lookup_2 | done].
  - exists (S (Z.to_nat mid)), hi1, ub.
    replace (Z.of_nat (S (Z.to_nat mid))) with (mid + 1) by lia.
    split; [done|]. split; [|lia].
    exists (S (Z.to_nat mid)), hi1, (S it), ub.
    replace (Z.of_nat (S (Z.to_nat mid))) with (mid + 1) by lia.
    split; [done|]. split; [lia|]. split; [rewrite Hp; nia|].
    split; [done|]. split; [done|]. done.
Qed.

(** The loop on a list in any order: it ends within the passes that halving
    allows. *)
Lemma binary_search_any_spec (fuel : nat) arr x :
  len arr < 2 ^ Z.of_nat fuel ->
  exists (it : nat) (ub : option A),
    binary_search_upper_bound ge fuel arr x = Returned (Z.of_nat it, ub) /\
    (forall v, ub = Some v -> v ∈ arr /\ ge v x = true) /\
    (it = 0%nat -> arr = []) /\
    (it <> 0%nat -> (2 ^ (it - 1) <= length arr)%nat).
Proof.
  intros Hfuel. unfold binary_search_upper_bound.
  set (Post := fun f : flow (Z * Z * Z * option A) Empty_set =>
    exists (lo hi : Z) (it : nat) (ub : option A),
      f = Next (lo, hi, Z.of_nat it, ub) /\
      (forall v, ub = Some v -> v ∈ arr /\ ge v x = true) /\
      (it = 0%nat -> arr = []) /\
      (it <> 0%nat -> (2 ^ (it - 1) <= length arr)%nat)).
  enough (exists f, while (fun '(left_, right_, _, _) => Returned (left_ <=? right_))
    (bs_body ge arr x) fuel (0, len arr - 1, 0, None) = Returned f /\ Post f)
    as (f & -> & lo & hi & it & ub & -> & Hp) by (simpl; eauto).
  apply (while_total _ _ (bs_any_inv ge arr x)
    (fun '(lo, hi, _, _) => bs_passes (hi - lo + 1)) Post).
  - intros st Hinv.
    pose proof Hinv as (lo & hi1 & it & ub & -> & Hr & Hsize & Hzero & Hpow & Hub).
    eexists. split; [done|].
    destruct (Z.leb_spec (Z.of_nat lo) (Z.of_nat hi1 - 1)) as [Hle|Hgt].
    + split.
      { unfold bs_passes. destruct (Z.leb_spec (Z.of_nat hi1 - 1 - Z.of_nat lo + 1) 0); lia. }
      destruct (bs_body_any arr x lo hi1 it ub Hinv ltac:(lia))
        as (lo' & hi1' & ub' & -> & Hinv' & Hhalf).
      eexists. split; [done|]. split; [done|]. apply bs_passes_half; lia.
    + exists (Z.of_nat lo), (Z.of_nat hi1 - 1), it, ub. split; [done|].
      split; [done|]. split; [|done].
      intros Hit. destruct (Hzero Hit) as [-> Hn]. apply length_zero_iff_nil. lia.
  - exists 0%nat, (length arr), 0%nat, None. split; [done|].
    split; [lia|]. split; [simpl; lia|]. split; [done|]. split; [done|]. done.
  - apply bs_passes_fuel; unfold len in *; [lia|].
    by replace (Z.of_nat (length arr) - 1 - 0 + 1) with (Z.of_nat (length arr)) by lia.
Qed.

(** On a list in any order, sorted or not, the search returns without an
    exception, and what it returns as [upper_bound] is [None] or an element
    of the list that is at least [x]. *)
Theorem binary_search_any_list (fuel : nat) arr x :
  len arr < 2 ^ Z.of_nat fuel ->
  exists (iterations : Z) (upper_bound : option A),
    binary_search_upper_bound ge fuel arr x = Returned (iterations, upper_bound) /\
    forall v, upper_bound = Some v -> v ∈ arr /\ ge v x = true.
Proof.
  intros Hfuel.
  destruct (binary_search_any_spec fuel arr x Hfuel) as (it & ub & Hrun & Hub & _).
  by exists (Z.of_nat it), ub.
Qed.

(** The number of iterations is logarithmic: it is 0 exactly on the empty
    list, and otherwise [2 ^ (iterations - 1) <= len(arr)], so a fuel of
    [log2(len(arr)) + 1] passes is enough. *)
Theorem binary_search_iterations (fuel : nat) arr x :
  len arr < 2 ^ Z.of_nat fuel ->
  exists (iterations : Z) (upper_bound : option A),
    binary_search_upper_bound ge fuel arr x = Returned (iterations, upper_bound) /\
    0 <= iterations <= Z.of_nat fuel /\
    (iterations = 0 <-> arr = []) /\
    (arr <> [] -> 2 ^ (iterations - 1) <= len arr).
Proof.
  intros Hfuel.
  destruct (binary_search_any_spec fuel arr x Hfuel) as (it & ub & Hrun & _ & Hz & Hpow).
  exists (Z.of_nat it), ub. split; [done|].
  assert (arr = [] -> it = 0%nat) as Hempty.
  { intros ->. unfold binary_search_upper_bound in Hrun.
    destruct fuel; simpl in Hrun; simplify_eq; lia. }
  assert (it <> 0%nat -> 2 ^ (Z.of_nat it - 1) <= len arr) as HpowZ.
  { intros Hit. specialize (Hpow Hit). unfold len.
    replace (Z.of_nat it - 1) with (Z.of_nat (it - 1)) by lia.
    pose proof (Nat2Z.inj_pow 2 (it - 1)) as E. change (Z.of_nat 2) with 2 in E.
    rewrite <- E. lia. }
  split; [|split].
  - split; [lia|]. destruct (decide (it = 0%nat)) as [->|Hit]; [lia|].
    specialize (HpowZ Hit).
    destruct (decide (it <= fuel)%nat) as [?|Hgt]; [lia|].
    assert (2 ^ Z.of_nat fuel <= 2 ^ (Z.of_nat it - 1)) by (apply Z.pow_le_mono_r; lia).
    lia.
  - split; [intros ?; apply Hz; lia | intros ?; rewrite Hempty; done].
  - intros Hne. apply HpowZ. intros ->. by apply Hne, Hz.
Qed.

End BinarySearchMore.

(** ** The totals of [sum_time] *)

Section ReportFacts.

Context {TN PL K T : Type} `{EqDecision K}.
Variable zero : T.
Variable add : T -> T -> T.
Variable lt : T -> T -> bool.
Implicit Types (d l : list (K * T)) (k : K) (results : list (TN * PL * K * T))
  (filter_fn : TN -> PL -> bool).

Lemma od_lookup_set d k v k' :
  od_lookup (od_set d k v) k' = if decide (k' = k) then Some v else od_lookup d k'.
Proof.
  induction d as [|[k0 v0] d IH]; simpl.
  - by destruct (decide (k' = k)).
  - destruct (decide (k = k0)) as [->|Hne]; simpl.
    + by destruct (decide (k' = k0)).
    + destruct (decide (k' = k0)) as [->|Hne'].
      * by destruct (decide (k0 = k)) as [->|].
      * apply IH.
Qed.

Lemma od_lookup_None d k : od_lookup d k = None <-> k ∉ d.*1.
Proof.
  induction d as [|[k0 v0] d IH]; csimpl.
  - split; [intros _; apply not_elem_of_nil | done].
  - rewrite not_elem_of_cons. destruct (decide (k = k0)) as [->|Hne].
    + split; [done | by intros [? _]].
    + rewrite IH. split; [done | by intros [_ ?]].
Qed.

Lemma od_set_keys d k v :
  (od_set d k v).*1 = if decide (k ∈ d.*1) then d.*1 else d.*1 ++ [k].
Proof.
  induction d as [|[k0 v0] d IH]; csimpl.
  - done.
  - destruct (decide (k = k0)) as [->|Hne]; csimpl.
    + clear IH. case_decide as Hnin; [done|]. destruct Hnin. apply elem_of_cons. by left.
    + rewrite IH. clear IH. case_decide as Hin.
      * case_decide as Hn; [done|]. destruct Hn. apply elem_of_cons. by right.
      * case_decide as Hin'; [|done].
        apply elem_of_cons in Hin' as [?|?]; done.
Qed.

Lemma od_set_NoDup d k v : NoDup d.*1 -> NoDup (od_set d k v).*1.
Proof.
  intros Hnd. rewrite od_set_keys. destruct (decide (k ∈ d.*1)); [done|].
  apply NoDup_app. split; [done|]. split; [|apply NoDup_singleton].
  intros k' Hk' Hin. apply list_elem_of_singleton in Hin as ->. done.
Qed.

Lemma od_lookup_elem d k t : NoDup d.*1 -> (k, t) ∈ d <-> od_lookup d k = Some t.
Proof.
  induction d as [|[k0 v0] d IH]; csimpl; intros Hnd.
  - split; [intros Hin; by apply elem_of_nil in Hin | done].
  - apply NoDup_cons in Hnd as [Hk0 Hnd]. rewrite elem_of_cons.
    destruct (decide (k = k0)) as [->|Hne].
    + split.
      * intros [?|Hin]; [by simplify_eq|]. destruct Hk0.
        apply list_elem_of_fmap. by exists (k0, t).
      * intros ?. simplify_eq. by left.
    + rewrite <- (IH Hnd). split; [intros [?|?]; [by simplify_eq | done] | by right].
Qed.

Lemma passing_secs_snoc results filter_fn tn pl an sec k :
  passing_secs (results ++ [(tn, pl, an, sec)]) filter_fn k
  = passing_secs results filter_fn k ++
    (if filter_fn tn pl && bool_decide (an = k) then [sec] else []).
Proof.
  unfold passing_secs. rewrite omap_app. simpl.
  by destruct (filter_fn tn pl && bool_decide (an = k)).
Qed.

Lemma passing_secs_nonempty results filter_fn k :
  passing_secs results filter_fn k <> [] <->
  exists tn pl sec, (tn, pl, k, sec) ∈ results /\ filter_fn tn pl = true.
Proof.
  induction results as [|[[[tn pl] an] sec] results IH] using rev_ind.
  - split; [done|]. intros (? & ? & ? & Hin & _). by apply elem_of_nil in Hin.
  - rewrite passing_secs_snoc. split.
    + intros Hne. destruct (filter_fn tn pl && bool_decide (an = k)) eqn:Hp.
      * apply andb_prop in Hp as [Hf Hk]. apply bool_decide_eq_true in Hk. subst an.
        exists tn, pl, sec. split; [|done]. apply elem_of_app. right. by left.
      * rewrite app_nil_r in Hne. apply IH in Hne as (tn' & pl' & sec' & Hin & Hf).
        exists tn', pl', sec'. split; [|done]. apply elem_of_app. by left.
    + intros (tn' & pl' & sec' & Hin & Hf). apply elem_of_app in Hin as [Hin|Hin].
      * assert (passing_secs results filter_fn k <> []) as Hne by (apply IH; eauto).
        by destruct (passing_secs results filter_fn k).
      * apply list_elem_of_singleton in Hin. simplify_eq. rewrite Hf.
        rewrite bool_decide_eq_true_2 by done. simpl.
        intros Hnil. by apply app_eq_nil in Hnil as [_ ?].
Qed.

(** The dict [totals]: one key for each algorithm with a passing result,
    holding the sum of its seconds. *)
Lemma sum_time_totals_spec results filter_fn :
  NoDup (sum_time_totals zero add results filter_fn).*1 /\
  forall k,
    od_lookup (sum_time_totals zero add results filter_fn) k
    = match passing_secs results filter_fn k with
      | [] => None
      | secs => Some (total_of zero add secs)
      end.
Proof.
  induction results as [|[[[tn pl] an] sec] results [IHnd IH]] using rev_ind.
  - split; [apply NoDup_nil_2 | done].
  - unfold sum_time_totals in *. rewrite fold_left_app. simpl.
    set (d := fold_left _ results []) in *.
    destruct (filter_fn tn pl) eqn:Hf.
    + split; [by apply od_set_NoDup|]. intros k.
      rewrite od_lookup_set, passing_secs_snoc, Hf. simpl.
      destruct (decide (k = an)) as [->|Hne].
      * rewrite bool_decide_eq_true_2 by done.
        unfold od_get. rewrite IH.
        destruct (passing_secs results filter_fn an) as [|s0 secs]; [done|].
        simpl. unfold total_of. simpl. by rewrite fold_left_app.
      * rewrite bool_decide_eq_false_2 by done. rewrite app_nil_r. apply IH.
    + split; [done|]. intros k. rewrite passing_secs_snoc, Hf. simpl.
      rewrite app_nil_r. apply IH.
Qed.

Lemma insert_by_value_perm x l : insert_by_value lt x l ≡ₚ x :: l.
Proof.
  induction l as [|y l IH]; simpl; [done|].
  destruct (lt y.2 x.2); [|done]. rewrite IH. apply Permutation_swap.
Qed.

Lemma sorted_by_value_perm l : sorted_by_value lt l ≡ₚ l.
Proof.
  induction l as [|x l IH]; simpl; [done|].
  rewrite insert_by_value_perm. by rewrite IH.
Qed.

(** What [sum_time] returns holds the items of [totals]. *)
Lemma sum_time_items results filter_fn :
  NoDup (sum_time zero add lt results filter_fn).*1 /\
  forall k t,
    (k, t) ∈ sum_time zero add lt results filter_fn <->
    passing_secs results filter_fn k <> [] /\
    t = total_of zero add (passing_secs results filter_fn k).
Proof.
  unfold sum_time. destruct (sum_time_totals_spec results filter_fn) as [Hnd Hl].
  pose proof (sorted_by_value_perm (sum_time_totals zero add results filter_fn)) as Hp.
  split; [by rewrite Hp|]. intros k t. rewrite Hp, (od_lookup_elem _ _ _ Hnd), Hl.
  destruct (passing_secs results filter_fn k) as [|s0 secs];
    [split; [done | by intros [? _]]|].
  split; [by intros ?; simplify_eq | by intros [_ ->]].
Qed.

Section Order.

(** What [<] on floats other than NaN gives. *)
Hypothesis lt_asym : forall a b, lt a b = true -> lt b a = false.
Hypothesis lt_negtrans :
  forall a b c, lt b a = false -> lt c b = false -> lt c a = false.

Lemma insert_by_value_sorted x l :
  StronglySorted (fun a b : K * T => lt b.2 a.2 = false) l ->
  StronglySorted (fun a b : K * T => lt b.2 a.2 = false) (insert_by_value lt x l).
Proof.
  induction l as [|y l IH]; simpl; intros Hs.
  - by repeat constructor.
  - apply StronglySorted_inv in Hs as [Hs Hy]. destruct (lt y.2 x.2) eqn:Hyx.
    + constructor; [by apply IH|]. rewrite insert_by_value_perm.
      constructor; [by apply lt_asym | done].
    + constructor; [by constructor|]. constructor; [done|].
      eapply Forall_impl; [exact Hy|]. simpl. intros z Hz. by eapply lt_negtrans.
Qed.

Lemma sorted_by_value_sorted l :
  StronglySorted (fun a b : K * T => lt b.2 a.2 = false) (sorted_by_value lt l).
Proof.
  induction l as [|x l IH]; simpl; [constructor | by apply insert_by_value_sorted].
Qed.

(** When some result passes the filter, [sum_time(filter_fn)[0]] is an
    algorithm with a passing result together with the sum of its seconds,
    and no algorithm with a passing result has a smaller sum. *)
Theorem sum_time_fastest results filter_fn :
  (exists tn pl k sec, (tn, pl, k, sec) ∈ results /\ filter_fn tn pl = true) ->
  exists k t,
    index (sum_time zero add lt results filter_fn) 0 = Returned (k, t) /\
    (exists tn pl sec, (tn, pl, k, sec) ∈ results /\ filter_fn tn pl = true) /\
    t = total_of zero add (passing_secs results filter_fn k) /\
    forall k' tn pl sec, (tn, pl, k', sec) ∈ results -> filter_fn tn pl = true ->
      lt (total_of zero add (passing_secs results filter_fn k')) t = false.
Proof.
  intros (tn0 & pl0 & k0 & sec0 & Hin0 & Hf0).
  destruct (sum_time_items results filter_fn) as [_ Hitems].
  assert ((k0, total_of zero add (passing_secs results filter_fn k0))
          ∈ sum_time zero add lt results filter_fn) as Hk0.
  { apply Hitems. split; [|done]. apply passing_secs_nonempty. eauto. }
  pose proof (sorted_by_value_sorted (sum_time_totals zero add results filter_fn)) as Hs.
  fold (sum_time zero add lt results filter_fn) in Hs.
  destruct (sum_time zero add lt results filter_fn) as [|[k t] out] eqn:Hout.
  { by apply elem_of_nil in Hk0. }
  exists k, t. split; [done|].
  assert ((k, t) ∈ (k, t) :: out) as Hkt by (apply elem_of_cons; by left).
  apply Hitems in Hkt as [Hne ->]. split; [by apply passing_secs_nonempty|].
  split; [done|]. intros k' tn pl sec Hin Hf.
  assert ((k', total_of zero add (passing_secs results filter_fn k'))
          ∈ (k, total_of zero add (passing_secs results filter_fn k)) :: out) as Hk'.
  { apply Hitems. split; [|done]. apply passing_secs_nonempty. eauto. }
  apply StronglySorted_inv in Hs as [_ Hall].
  apply elem_of_cons in Hk' as [Heq|Hk'].
  - assert (k' = k) as -> by congruence.
    destruct (lt _ _) eqn:Hlt; [|done]. by rewrite (lt_asym _ _ Hlt) in Hlt.
  - rewrite Forall_forall in Hall. apply (Hall _ Hk').
Qed.

End Order.

(** [sum_time] lists every algorithm that has a result passing the filter,
    once, with the sum of the seconds of its passing results, added from
    [0.0] in the order of [results]. *)
Theorem sum_time_items_correct results filter_fn :
  let out := sum_time zero add lt results filter_fn in
  NoDup out.*1 /\
  (forall k, k ∈ out.*1 <->
     exists tn pl sec, (tn, pl, k, sec) ∈ results /\ filter_fn tn pl = true) /\
  (forall k t, (k, t) ∈ out ->
     t = total_of zero add (passing_secs results filter_fn k)).
Proof.
  intros out. subst out. destruct (sum_time_items results filter_fn) as [Hnd Hitems].
  split; [done|]. split.
  - intros k. rewrite <- passing_secs_nonempty. rewrite list_elem_of_fmap. split.
    + intros ([k' t] & -> & Hin). by apply Hitems in Hin as [? _].
    + intros Hne. exists (k, total_of zero add (passing_secs results filter_fn k)).
      split; [done|]. by apply Hitems.
  - intros k t Hin. by apply Hitems in Hin as [_ ?].
Qed.

(** The [[0]] that [main] applies to the list raises [IndexError] exactly
    when no result passes the filter. *)
Theorem sum_time_index_error results filter_fn :
  index (sum_time zero add lt results filter_fn) 0 = Raised IndexError <->
  forall tn pl k sec, (tn, pl, k, sec) ∈ results -> filter_fn tn pl = false.
Proof.
  destruct (sum_time_items results filter_fn) as [_ Hitems].
  destruct (sum_time zero add lt results filter_fn) as [|[k t] out] eqn:Hout.
  - split; [|done]. intros _ tn pl k sec Hin.
    destruct (filter_fn tn pl) eqn:Hf; [|done].
    assert ((k, total_of zero add (passing_secs results filter_fn k)) ∈ []) as Hk.
    { apply Hitems. split; [|done]. apply passing_secs_nonempty. eauto. }
    by apply elem_of_nil in Hk.
  - split; [done|]. intros Hnone.
    assert ((k, t) ∈ (k, t) :: out) as Hkt by (apply elem_of_cons; by left).
    apply Hitems in Hkt as [Hne _].
    apply passing_secs_nonempty in Hne as (tn & pl & sec & Hin & Hf).
    by rewrite (Hnone _ _ _ _ Hin) in Hf.
Qed.

End ReportFacts.

(** ** The further theorems at concrete inputs *)

Lemma matchers_leftmost_witness :
  (2 * length (str "abcabd") <= 12)%nat /\ default_mod <> 0 /\
  exists r,
    boyer_moore_horspool 12 (str "abcabd") (str "ab") = Returned (VInt r) /\
    kmp_search 12 (str "abcabd") (str "ab") = Returned (VInt r) /\
    rabin_karp_search ascii_ord (str "abcabd") (str "ab") default_base default_mod
    = Returned (VInt r) /\
    ((r = -1 /\ forall i, ~ occurs_at (str "abcabd") (str "ab") i) \/
     (occurs_at (str "abcabd") (str "ab") r /\
      forall i, i < r -> ~ occurs_at (str "abcabd") (str "ab") i)).
Proof.
  split; [simpl; lia|]. split; [unfold default_mod; lia|].
  apply (matchers_leftmost ascii_ord 12 (str "abcabd") (str "ab")
           default_base default_mod).
  - simpl. lia.
  - unfold default_mod. lia.
Defined.

Lemma pattern_longer_than_text_witness :
  (length (str "ab") < length (str "abc"))%nat /\
  boyer_moore_horspool 0 (str "ab") (str "abc") = Returned (VInt (-1)) /\
  kmp_search 0 (str "ab") (str "abc") = Returned (VInt (-1)) /\
  rabin_karp_search ascii_ord (str "ab") (str "abc") default_base 0
  = Returned (VInt (-1)).
Proof.
  split; [simpl; lia|].
  apply (pattern_longer_than_text ascii_ord 0 (str "ab") (str "abc") default_base 0).
  simpl. lia.
Defined.

Lemma rabin_karp_parameters_irrelevant_witness :
  default_mod <> 0 /\ -7 <> 0 /\
  rabin_karp_search ascii_ord (str "abcabd") (str "abd") default_base default_mod
  = rabin_karp_search (fun _ => 1) (str "abcabd") (str "abd") 2 (-7).
Proof.
  split; [unfold default_mod; lia|]. split; [lia|].
  apply (rabin_karp_parameters_irrelevant ascii_ord (fun _ => 1) (str "abcabd")
           (str "abd") default_base 2 default_mod (-7)).
  - unfold default_mod. lia.
  - lia.
Defined.

Lemma horspool_shift_safe_witness :
  (0 < length (str "abcdabcy"))%nat /\ (length (str "abcdabcy") <= 8)%nat /\
  0 <= 0 <= len (str "abcxabcdabxabcdabcdabcy") - len (str "abcdabcy") /\
  ~ occurs_at (str "abcxabcdabxabcdabcdabcy") (str "abcdabcy") 0 /\
  exists c d,
    index (str "abcxabcdabxabcdabcdabcy") (0 + (len (str "abcdabcy") - 1)) = Returned c /\
    d = dict_get (build_shift (str "abcdabcy")) c (len (str "abcdabcy")) /\
    bmh_body 8 (build_shift (str "abcdabcy")) (str "abcxabcdabxabcdabcdabcy")
      (str "abcdabcy") 0 = Returned (Next (0 + d)) /\
    1 <= d <= len (str "abcdabcy") /\
    forall i', 0 <= i' < 0 + d ->
      ~ occurs_at (str "abcxabcdabxabcdabcdabcy") (str "abcdabcy") i'.
Proof.
  assert (~ occurs_at (str "abcxabcdabxabcdabcdabcy") (str "abcdabcy") 0) as Hno.
  { intros [_ Hs]. vm_compute in Hs. discriminate Hs. }
  split; [simpl; lia|]. split; [simpl; lia|].
  split; [unfold len; simpl; lia|]. split; [exact Hno|].
  apply (horspool_shift_safe 8 (str "abcxabcdabxabcdabcdabcy") (str "abcdabcy") 0).
  - simpl. lia.
  - simpl. lia.
  - unfold len. simpl. lia.
  - exact Hno.
Defined.

Lemma lps_table_shape_witness :
  (0 < length (str "aabaaab"))%nat /\ (2 * length (str "aabaaab") <= 14)%nat /\
  exists lps, build_lps 14 (str "aabaaab") = Returned lps /\
    lps !! 0%nat = Some 0 /\
    (forall (i : nat) v, lps !! i = Some v -> 0 <= v <= Z.of_nat i) /\
    (forall (i : nat) v w, lps !! i = Some v -> lps !! S i = Some w -> w <= v + 1).
Proof.
  split; [simpl; lia|]. split; [simpl; lia|].
  apply (lps_table_shape 14 (str "aabaaab")); simpl; lia.
Defined.

Lemma binary_search_any_list_witness :
  len [5; 1; 4] < 2 ^ Z.of_nat 2 /\
  exists (iterations : Z) (upper_bound : option Z),
    binary_search_upper_bound Z.geb 2 [5; 1; 4] 3 = Returned (iterations, upper_bound) /\
    forall v, upper_bound = Some v -> v ∈ [5; 1; 4] /\ (v >=? 3) = true.
Proof.
  split; [unfold len; simpl; lia|].
  apply (binary_search_any_list Z.geb 2 [5; 1; 4] 3). unfold len. simpl. lia.
Defined.

Lemma binary_search_iterations_witness :
  len [1; 3; 3; 5; 9] < 2 ^ Z.of_nat 3 /\
  exists (iterations : Z) (upper_bound : option Z),
    binary_search_upper_bound Z.geb 3 [1; 3; 3; 5; 9] 4
    = Returned (iterations, upper_bound) /\
    0 <= iterations <= Z.of_nat 3 /\
    (iterations = 0 <-> [1; 3; 3; 5; 9] = []) /\
    ([1; 3; 3; 5; 9] <> [] -> 2 ^ (iterations - 1) <= len [1; 3; 3; 5; 9]).
Proof.
  split; [unfold len; simpl; lia|].
  apply (binary_search_iterations Z.geb 3 [1; 3; 3; 5; 9] 4). unfold len. simpl. lia.
Defined.

Lemma sum_time_fastest_witness :
  let results :=
    [("t1", "p1", "bmh", 5); ("t1", "p1", "kmp", 3); ("t2", "p1", "rk", 2);
     ("t1", "p2", "bmh", 1); ("t1", "p2", "kmp", 2)]%string in
  let filter_fn := fun (tn pl : string) => String.eqb tn "t1" in
  (exists tn pl k sec, (tn, pl, k, sec) ∈ results /\ filter_fn tn pl = true) /\
  exists k t,
    index (sum_time 0 Z.add Z.ltb results filter_fn) 0 = Returned (k, t) /\
    (exists tn pl sec, (tn, pl, k, sec) ∈ results /\ filter_fn tn pl = true) /\
    t = total_of 0 Z.add (passing_secs results filter_fn k) /\
    forall k' tn pl sec, (tn, pl, k', sec) ∈ results -> filter_fn tn pl = true ->
      (total_of 0 Z.add (passing_secs results filter_fn k') <? t) = false.
Proof.
  intros results filter_fn.
  assert (exists tn pl k sec, (tn, pl, k, sec) ∈ results /\ filter_fn tn pl = true) as Hex.
  { exists "t1"%string, "p1"%string, "bmh"%string, 5. split; [|reflexivity].
    apply elem_of_cons. by left. }
  split; [exact Hex|].
  apply (sum_time_fastest 0 Z.add Z.ltb).
  - intros a b Hab. apply Z.ltb_lt in Hab. apply Z.ltb_ge. lia.
  - intros a b c Hba Hcb. apply Z.ltb_ge in Hba, Hcb. apply Z.ltb_ge. lia.
  - exact Hex.
Defined.

Example scenario_sum_time :
  sum_time 0 Z.add Z.ltb
    [("t1", "p1", "bmh", 5); ("t1", "p1", "kmp", 3); ("t2", "p1", "rk", 2);
     ("t1", "p2", "bmh", 1); ("t1", "p2", "kmp", 2)]%string
    (fun tn pl => String.eqb tn "t1")
  = [("kmp", 5); ("bmh", 6)]%string.
Proof. vm_compute. done. Qed.
